(** * Order saga: a shallow embedding of the Temporal order workflow

    The development follows the layout of the repository:

    - [Types]       the records of [src/types/index.ts];
    - [Js]          the few JavaScript notions the code relies on (thrown
                    values, truthiness of optional strings, [try]/[catch]);
    - [Activities]  [src/activities/order-activities.ts]: the eight
                    activities over the three in-memory stores;
    - [Workflow]    [src/workflows/order-workflow.ts]: [orderWorkflow] over an
                    abstract activity gateway (what [proxyActivities] returns);
    - [Worker]      the gateway obtained by registering the activities of
                    [src/activities/index.ts] behind the declared retry policy.

    Modelling choices.  Item quantities are integers ([Z]).  The code adds
    and subtracts them as doubles, which agrees with [Z] as long as operands
    and results are integers between 0 and 2^53; the laws that state exact
    sums assume that range ([Stock.exact_reserve], [Stock.exact_release]).
    Amounts and random draws are rationals ([Q]), which contain every finite
    double, and the code only compares them.  A call through the proxy that
    fails for good is rejected with Temporal's [ActivityFailure]
    ([Worker.retry]).  Timers ([sleep], [setTimeout]) have no effect on
    results: [sleep] is kept as a no-op, and logging is left out.  Every activity
    call made by the workflow is recorded in a call log together with the way
    it resolved, so that orderings of invocations can be stated. *)

From Stdlib Require Import QArith.
From stdpp Require Import base option list strings gmap.

Close Scope Q_scope.
Open Scope string_scope.
Open Scope Z_scope.

(* ===================================================================== *)
(** ** src/types/index.ts *)
(* ===================================================================== *)

Module Types.

Record OrderItem := mkOrderItem {
  itemId : string;
  name : string;
  quantity : Z;
  price : Q;
}.

Record OrderData := mkOrderData {
  orderId : string;
  userId : string;
  items : list OrderItem;
  totalAmount : Q;
}.

Inductive OrderStatus := created | cancelled.

Record Order := mkOrder {
  o_orderId : string;
  o_userId : string;
  o_items : list OrderItem;
  o_totalAmount : Q;
  o_status : OrderStatus;
  o_createdAt : string;
  o_cancelledAt : option string;
}.

Record InventoryItem := mkInventoryItem {
  i_name : string;
  i_quantity : Z;
  i_reserved : option Z;
}.

Inductive PaymentStatus := completed | refunded.

Record Payment := mkPayment {
  p_paymentId : string;
  p_orderId : string;
  p_userId : string;
  p_amount : Q;
  p_status : PaymentStatus;
  p_processedAt : string;
  p_refundedAt : option string;
}.

(** [ActivityResult] and the interfaces extending it.  One record carries the
    base fields and the optional [paymentId]/[amount] of
    [ProcessPaymentResult]; [CreateOrderResult] spreads an [Order] into the
    result, kept here as one optional field. *)
Record ActivityResult := mkActivityResult {
  success : bool;
  message : option string;
  paymentId : option string;
  amount : option Q;
  order : option Order;
}.

Record WorkflowResult := mkWorkflowResult {
  w_success : bool;
  w_orderId : string;
  w_message : string;
  w_paymentId : option string;
  w_error : option string;
}.

(** The string literal types of [CompensationStep.type]. *)
Inductive CompensationType :=
  type_cancelOrder | type_releaseInventory | type_refundPayment.

Record CompensationData := mkCompensationData {
  d_orderId : string;
  d_items : option (list OrderItem);
  d_paymentId : option string;
}.

Record CompensationStep := mkCompensationStep {
  type : CompensationType;
  data : CompensationData;
}.

#[export] Instance CompensationType_eq_dec : EqDecision CompensationType.
Proof. solve_decision. Defined.

End Types.
Export Types.

(* ===================================================================== *)
(** ** JavaScript notions used by the code *)
(* ===================================================================== *)

Module Js.

(** What a [catch] clause can receive: an [Error] object with its message, or
    any other value ([error instanceof Error] is then false). *)
Inductive thrown := JsError (msg : string) | JsOther.

(** [error instanceof Error ? error.message : 'Unknown error'] *)
Definition error_message (e : thrown) : string :=
  match e with
  | JsError m => m
  | JsOther => "Unknown error"
  end.

(** Truthiness of an optional string: [undefined] and [''] are falsy. *)
Definition truthy (o : option string) : bool :=
  match o with
  | Some s => negb (String.eqb s "")
  | None => false
  end.

(** [o || d] on an optional string. *)
Definition or_else (o : option string) (d : string) : string :=
  match o with
  | Some s => if String.eqb s "" then d else s
  | None => d
  end.

(** Computations over a state [S] that may throw. *)
Definition M (S A : Type) : Type := S → (A + thrown) * S.

#[export] Instance M_ret {S} : MRet (M S) := λ A a s, (inl a, s).

#[export] Instance M_bind {S} : MBind (M S) := λ A B k m s,
  match m s with
  | (inl a, s') => k a s'
  | (inr e, s') => (inr e, s')
  end.

Definition throw {S A} (e : thrown) : M S A := λ s, (inr e, s).

(** [try { body } catch (e) { handler e }]: the state reached when the
    exception was raised is the one the handler starts from. *)
Definition try_catch {S A} (body : M S A) (handler : thrown → M S A) : M S A :=
  λ s, match body s with
       | (inl a, s') => (inl a, s')
       | (inr e, s') => handler e s'
       end.

Definition gets {S A} (f : S → A) : M S A := λ s, (inl (f s), s).
Definition modify {S} (f : S → S) : M S unit := λ s, (inl tt, f s).

(** [if (c) { m }] with no [else]. *)
Definition when {S} (c : bool) (m : M S unit) : M S unit :=
  if c then m else mret tt.

End Js.
Export Js.

(* ===================================================================== *)
(** ** src/activities/order-activities.ts *)
(* ===================================================================== *)

Module Activities.

(** The module-level maps, and a counter of the reads made so far of the
    ambient sources ([Math.random], [Date]). *)
Record Stores := mkStores {
  orders : gmap string Order;
  inventory : gmap string InventoryItem;
  payments : gmap string Payment;
  reads : nat;
}.

(** The ambient sources, indexed by the number of reads made before. *)
Record Ambient := mkAmbient {
  Math_random : nat → Q;            (* a value of [Math.random()] *)
  Date_now : nat → string;          (* [Date.now()] in decimal *)
  toISOString : nat → string;       (* [new Date().toISOString()] *)
  toString36 : Q → string;          (* [x.toString(36).substring(7)] *)
}.

Definition initial_inventory : gmap string InventoryItem :=
  <["item-1" := mkInventoryItem "Product 1" 10 None]>
  (<["item-2" := mkInventoryItem "Product 2" 5 None]>
  (<["item-3" := mkInventoryItem "Product 3" 8 None]> ∅)).

Definition initial_stores : Stores := mkStores ∅ initial_inventory ∅ 0.

Definition set_orders (f : gmap string Order → gmap string Order) (st : Stores) :=
  mkStores (f (orders st)) (inventory st) (payments st) (reads st).
Definition set_inventory (f : gmap string InventoryItem → gmap string InventoryItem)
    (st : Stores) :=
  mkStores (orders st) (f (inventory st)) (payments st) (reads st).
Definition set_payments (f : gmap string Payment → gmap string Payment) (st : Stores) :=
  mkStores (orders st) (inventory st) (f (payments st)) (reads st).

Abbreviation Act := (M Stores).

Definition ok_result (msg : option string) : ActivityResult :=
  mkActivityResult true msg None None None.
Definition failed_result (msg : string) : ActivityResult :=
  mkActivityResult false (Some msg) None None None.

Definition Qltb (x y : Q) : bool := negb (Qle_bool y x).

Section WithAmbient.
Variable amb : Ambient.

(** One read of an ambient source. *)
Definition read {A} (src : nat → A) : Act A :=
  λ st, (inl (src (reads st)),
         mkStores (orders st) (inventory st) (payments st) (S (reads st))).

(** [createOrderActivity] *)
Definition createOrderActivity (d : OrderData) : Act ActivityResult :=
  createdAt ← read (toISOString amb);
  let order := mkOrder (orderId d) (userId d) (items d) (totalAmount d)
                       created createdAt None in
  modify (set_orders (insert (orderId d) order)) ;;
  mret (mkActivityResult true None None None (Some order)).

(** The body of the [for (const item of items)] loop of
    [reserveInventoryActivity]; [Some r] is an early [return r].  The
    subtraction and the sum are those of [Z]: they are the code's for
    integers in the exact range (see [Stock.exact_reserve]). *)
Definition reserve_item (item : OrderItem) : Act (option ActivityResult) :=
  inv ← gets inventory;
  match inv !! itemId item with
  | Some stock =>
      if i_quantity stock <? quantity item then
        mret (Some (failed_result
                     ("Insufficient inventory for product " +:+ itemId item)))
      else
        modify (set_inventory (insert (itemId item)
          (mkInventoryItem (i_name stock)
             (i_quantity stock - quantity item)
             (Some (default 0 (i_reserved stock) + quantity item))))) ;;
        mret None
  | None =>
      mret (Some (failed_result
                   ("Insufficient inventory for product " +:+ itemId item)))
  end.

Fixpoint reserve_loop (its : list OrderItem) : Act (option ActivityResult) :=
  match its with
  | [] => mret None
  | item :: rest =>
      r ← reserve_item item;
      match r with
      | Some res => mret (Some res)
      | None => reserve_loop rest
      end
  end.

(** [reserveInventoryActivity] *)
Definition reserveInventoryActivity (oid : string) (its : list OrderItem)
    : Act ActivityResult :=
  r ← reserve_loop its;
  match r with
  | Some res => mret res
  | None => mret (ok_result (Some "Inventory reserved successfully"))
  end.

(** [processPaymentActivity] *)
Definition processPaymentActivity (oid uid : string) (amt : Q) : Act ActivityResult :=
  delay ← read (Math_random amb);
  r ← read (Math_random amb);
  let random := (r * 100)%Q in
  if Qltb 1000 amt then
    mret (failed_result "Payment failed: Amount exceeds limit of 1000")
  else if Qltb random 15 then
    throw (JsError "Payment API timeout - network connection failed")
  else if Qle_bool 15 random && Qltb random 25 then
    throw (JsError "Payment API server error 500 - Internal server error")
  else if Qle_bool 25 random && Qltb random 30 then
    mret (failed_result "Payment failed: Invalid request format (400 Bad Request)")
  else if Qle_bool 30 random && Qltb random 33 then
    mret (failed_result "Payment failed: Invalid API credentials (401 Unauthorized)")
  else
    now ← read (Date_now amb);
    x ← read (Math_random amb);
    let pid := "payment-" +:+ now +:+ "-" +:+ toString36 amb x in
    processedAt ← read (toISOString amb);
    modify (set_payments (insert pid
      (mkPayment pid oid uid amt completed processedAt None))) ;;
    mret (mkActivityResult true None (Some pid) (Some amt) None).

(** [sendConfirmationEmailActivity] *)
Definition sendConfirmationEmailActivity (oid uid : string) (total : Q)
    : Act ActivityResult :=
  mret (ok_result (Some "Email sent")).

(** [cancelOrderActivity] *)
Definition cancelOrderActivity (oid : string) : Act ActivityResult :=
  os ← gets orders;
  match os !! oid with
  | Some o =>
      cancelledAt ← read (toISOString amb);
      modify (set_orders (insert oid
        (mkOrder (o_orderId o) (o_userId o) (o_items o) (o_totalAmount o)
                 cancelled (o_createdAt o) (Some cancelledAt))))
  | None => mret tt
  end ;;
  mret (ok_result (Some "Order cancelled")).

(** The body of the loop of [releaseInventoryActivity].  The sum and the
    floored difference are those of [Z]: they are the code's for integers in
    the exact range (see [Stock.exact_release]). *)
Definition release_item (item : OrderItem) : Act unit :=
  inv ← gets inventory;
  match inv !! itemId item with
  | Some stock =>
      modify (set_inventory (insert (itemId item)
        (mkInventoryItem (i_name stock)
           (i_quantity stock + quantity item)
           (Some (Z.max 0 (default 0 (i_reserved stock) - quantity item))))))
  | None => mret tt
  end.

Fixpoint release_loop (its : list OrderItem) : Act unit :=
  match its with
  | [] => mret tt
  | item :: rest => release_item item ;; release_loop rest
  end.

(** [releaseInventoryActivity] *)
Definition releaseInventoryActivity (oid : string) (its : list OrderItem)
    : Act ActivityResult :=
  release_loop its ;;
  mret (ok_result (Some "Inventory released")).

(** [refundPaymentActivity] *)
Definition refundPaymentActivity (oid pid : string) : Act ActivityResult :=
  ps ← gets payments;
  match ps !! pid with
  | Some p =>
      refundedAt ← read (toISOString amb);
      modify (set_payments (insert pid
        (mkPayment (p_paymentId p) (p_orderId p) (p_userId p) (p_amount p)
                   refunded (p_processedAt p) (Some refundedAt))))
  | None => mret tt
  end ;;
  mret (ok_result (Some "Payment refunded")).

(** [sendCancellationEmailActivity] *)
Definition sendCancellationEmailActivity (oid uid reason : string)
    : Act ActivityResult :=
  mret (ok_result (Some "Cancellation email sent")).

End WithAmbient.

End Activities.

(* ===================================================================== *)
(** ** src/workflows/order-workflow.ts *)
(* ===================================================================== *)

Module Workflow.

(** The eight activities reachable through [proxyActivities]. *)
Inductive Capability :=
  | CreateOrder | ReserveInventory | ProcessPayment | SendConfirmationEmail
  | CancelOrder | ReleaseInventory | RefundPayment | SendCancellationEmail.

#[export] Instance Capability_eq_dec : EqDecision Capability.
Proof. solve_decision. Defined.

(** How an awaited activity call resolved in the workflow. *)
Inductive Resolution := Returned (r : ActivityResult) | Raised (e : thrown).

Record Call := mkCall { capability : Capability; resolution : Resolution }.

(** The activity proxies, over the state [W] of the world behind them.  A
    proxy either returns a result or throws once the retry policy gave up. *)
Record Gateway (W : Type) := mkGateway {
  createOrder : OrderData → M W ActivityResult;
  reserveInventory : string → list OrderItem → M W ActivityResult;
  processPayment : string → string → Q → M W ActivityResult;
  sendConfirmationEmail : string → string → Q → M W ActivityResult;
  cancelOrder : CompensationData → M W ActivityResult;
  releaseInventory : CompensationData → M W ActivityResult;
  refundPayment : CompensationData → M W ActivityResult;
  sendCancellationEmail : string → string → string → M W ActivityResult;
}.
Arguments createOrder {W}.
Arguments reserveInventory {W}.
Arguments processPayment {W}.
Arguments sendConfirmationEmail {W}.
Arguments cancelOrder {W}.
Arguments releaseInventory {W}.
Arguments refundPayment {W}.
Arguments sendCancellationEmail {W}.

(** The state of one run: the local array [compensationSteps], the log of
    the calls awaited so far (oldest first), and the world. *)
Record State (W : Type) := mkState {
  compensationSteps : list CompensationStep;
  calls : list Call;
  world : W;
}.
Arguments mkState {W}.
Arguments compensationSteps {W}.
Arguments calls {W}.
Arguments world {W}.

Section Saga.
Context {W : Type}.
Variable gw : Gateway W.

(** [await act(args)]: run the proxy on the world and log how it resolved. *)
Definition invoke (c : Capability) (act : M W ActivityResult)
    : M (State W) ActivityResult :=
  λ s, match act (world s) with
       | (inl r, w') =>
           (inl r, mkState (compensationSteps s)
                           (calls s ++ [mkCall c (Returned r)]) w')
       | (inr e, w') =>
           (inr e, mkState (compensationSteps s)
                           (calls s ++ [mkCall c (Raised e)]) w')
       end.

(** [compensationSteps.push(step)] *)
Definition push (step : CompensationStep) : M (State W) unit :=
  modify (λ s, mkState (compensationSteps s ++ [step]) (calls s) (world s)).

(** [await sleep(d)]: a timer, without effect on the world. *)
Definition sleep (d : string) : M (State W) unit := mret tt.

(** The [try] block of [orderWorkflow]. *)
Definition try_block (orderData : OrderData) : M (State W) WorkflowResult :=
  let orderId := orderId orderData in
  let userId := userId orderData in
  let items := items orderData in
  let totalAmount := totalAmount orderData in
  (* Step 1: Create order *)
  invoke CreateOrder (createOrder gw orderData) ;;
  push (mkCompensationStep type_cancelOrder
          (mkCompensationData orderId None None)) ;;
  sleep "2s" ;;
  (* Step 2: Reserve inventory *)
  inventoryResult ← invoke ReserveInventory (reserveInventory gw orderId items);
  push (mkCompensationStep type_releaseInventory
          (mkCompensationData orderId (Some items) None)) ;;
  when (negb (success inventoryResult))
       (throw (JsError "Insufficient inventory")) ;;
  sleep "2s" ;;
  (* Step 3: Process payment *)
  paymentResult ← invoke ProcessPayment
                    (processPayment gw orderId userId totalAmount);
  when (negb (success paymentResult))
       (throw (JsError ("Payment failed: "
                        +:+ or_else (message paymentResult) "Unknown error"))) ;;
  when (truthy (paymentId paymentResult))
       (push (mkCompensationStep type_refundPayment
                (mkCompensationData orderId None (paymentId paymentResult)))) ;;
  sleep "2s" ;;
  (* Step 4: Send confirmation email *)
  invoke SendConfirmationEmail
    (sendConfirmationEmail gw orderId userId totalAmount) ;;
  mret (mkWorkflowResult true orderId "Order processed successfully"
          (paymentId paymentResult) None).

(** The [switch (step.type)] of the compensation loop. *)
Definition compensate (step : CompensationStep) : M (State W) ActivityResult :=
  match type step with
  | type_refundPayment => invoke RefundPayment (refundPayment gw (data step))
  | type_releaseInventory =>
      invoke ReleaseInventory (releaseInventory gw (data step))
  | type_cancelOrder => invoke CancelOrder (cancelOrder gw (data step))
  end.

(** [for (let i = n - 1; i >= 0; i--)] over [compensationSteps]; reading a
    property of an absent element is a [TypeError], raised again by the
    handler that logs [step.type]. *)
Fixpoint compensation_loop (n : nat) : M (State W) unit :=
  match n with
  | O => mret tt
  | S i =>
      steps ← gets compensationSteps;
      match steps !! i with
      | Some step =>
          try_catch (compensate step ;; sleep "1s") (λ compError, mret tt) ;;
          compensation_loop i
      | None =>
          throw (JsError "Cannot read properties of undefined (reading 'type')")
      end
  end.

(** The [catch (error)] block of [orderWorkflow]. *)
Definition catch_block (orderData : OrderData) (error : thrown)
    : M (State W) WorkflowResult :=
  let errorMessage := error_message error in
  n ← gets (λ s, length (compensationSteps s));
  compensation_loop n ;;
  try_catch
    (invoke SendCancellationEmail
       (sendCancellationEmail gw (orderId orderData) (userId orderData)
          errorMessage) ;; mret tt)
    (λ emailError, mret tt) ;;
  mret (mkWorkflowResult false (orderId orderData)
          "Order cancelled and refunded" None (Some errorMessage)).

Definition orderWorkflow (orderData : OrderData) : M (State W) WorkflowResult :=
  try_catch (try_block orderData) (catch_block orderData).

(** One execution from a world [w]: [compensationSteps] starts empty. *)
Definition run (orderData : OrderData) (w : W)
    : (WorkflowResult + thrown) * State W :=
  orderWorkflow orderData (mkState [] [] w).

End Saga.

(** *** Reading the call log *)

(** The Step Catalog: forward steps in order, each with its compensation. *)
Definition catalog : list Capability :=
  [CreateOrder; ReserveInventory; ProcessPayment; SendConfirmationEmail].

Definition is_forward (c : Capability) : bool :=
  match c with
  | CreateOrder | ReserveInventory | ProcessPayment | SendConfirmationEmail =>
      true
  | _ => false
  end.

Definition compensation_of (c : Capability) : option Capability :=
  match c with
  | CreateOrder => Some CancelOrder
  | ReserveInventory => Some ReleaseInventory
  | ProcessPayment => Some RefundPayment
  | _ => None
  end.

(** The capability a ledger entry dispatches to. *)
Definition capability_of_type (t : CompensationType) : Capability :=
  match t with
  | type_cancelOrder => CancelOrder
  | type_releaseInventory => ReleaseInventory
  | type_refundPayment => RefundPayment
  end.

Definition is_compensation (c : Capability) : bool :=
  match c with
  | CancelOrder | ReleaseInventory | RefundPayment => true
  | _ => false
  end.

Definition returned_success (c : Call) : bool :=
  match resolution c with
  | Returned r => success r
  | Raised _ => false
  end.

Definition returned_failure (c : Call) : bool :=
  match resolution c with
  | Returned r => negb (success r)
  | Raised _ => false
  end.

Definition raised (c : Call) : bool :=
  match resolution c with
  | Returned _ => false
  | Raised _ => true
  end.

(** Forward capabilities invoked, in order of invocation. *)
Definition forward_invoked (log : list Call) : list Capability :=
  List.filter is_forward (capability <$> log).

(** Compensations executed, in order of invocation. *)
Definition compensations_executed (log : list Call) : list Capability :=
  List.filter is_compensation (capability <$> log).

(** Forward steps that returned success, in order of invocation. *)
Definition forward_succeeded (log : list Call) : list Capability :=
  capability <$>
    List.filter (λ c, is_forward (capability c) && returned_success c) log.

End Workflow.

(* ===================================================================== *)
(** ** src/activities/index.ts and src/worker.ts: the registered activities *)
(* ===================================================================== *)

Module Worker.
Import Activities Workflow.

(** [retry.maximumAttempts] of the options given to [proxyActivities]. *)
Definition maximumAttempts : nat := 3.

(** What the workflow catches from a proxy whose activity failed for good:
    Temporal's [ActivityFailure], an [Error] whose message is always
    ['Activity task failed']; the error the activity threw is its [cause],
    which [orderWorkflow] does not read. *)
Definition ActivityFailure : thrown := JsError "Activity task failed".

(** The declared retry policy acts on thrown errors only: an attempt that
    throws is run again while attempts remain; when the last attempt throws
    too, the call is rejected with [ActivityFailure].  Effects of a failed
    attempt on the stores stay.  Backoff intervals are timing only. *)
Fixpoint retry {S A} (more : nat) (act : M S A) : M S A :=
  match more with
  | O => try_catch act (λ _, throw ActivityFailure)
  | S k => try_catch act (λ _, retry k act)
  end.

Definition proxy {S A} (act : M S A) : M S A := retry (maximumAttempts - 1) act.

Section Registered.
Variable amb : Ambient.

(** The [activities] object, each entry behind its proxy.  The compensation
    proxies receive [step.data] as it is: an absent [items] makes the
    [for ... of] of [releaseInventoryActivity] throw, an absent [paymentId]
    is looked up as [undefined] and found in no store. *)
Definition activities : Gateway Stores := {|
  createOrder := λ d, proxy (createOrderActivity amb d);
  reserveInventory := λ oid its, proxy (reserveInventoryActivity oid its);
  processPayment := λ oid uid amt, proxy (processPaymentActivity amb oid uid amt);
  sendConfirmationEmail := λ oid uid total,
    proxy (sendConfirmationEmailActivity oid uid total);
  cancelOrder := λ d, proxy (cancelOrderActivity amb (d_orderId d));
  releaseInventory := λ d,
    proxy (match d_items d with
           | Some its => releaseInventoryActivity (d_orderId d) its
           | None => throw (JsError "items is not iterable")
           end);
  refundPayment := λ d,
    proxy (match d_paymentId d with
           | Some pid => refundPaymentActivity amb (d_orderId d) pid
           | None => mret (ok_result (Some "Payment refunded"))
           end);
  sendCancellationEmail := λ oid uid reason,
    proxy (sendCancellationEmailActivity oid uid reason);
|}.

End Registered.

(** An ambient used for closed examples: every draw is 0.5 (no simulated
    failure), the clock is stopped. *)
Definition ambient0 : Ambient :=
  mkAmbient (λ _, (1 # 2)%Q) (λ _, "0") (λ _, "1970-01-01T00:00:00.000Z")
            (λ _, "x").

(** An ambient whose every draw is 0.1: the percentage is 10, the band of
    the simulated network timeout. *)
Definition ambient_timeout : Ambient :=
  mkAmbient (λ _, (1 # 10)%Q) (λ _, "0") (λ _, "1970-01-01T00:00:00.000Z")
            (λ _, "x").

End Worker.

(* ===================================================================== *)
(** ** Vocabulary for stating the properties *)
(* ===================================================================== *)

Module Inventory.
Import Activities.

(** Total quantity that the items [its] request of product [k]. *)
Definition requested (k : string) (its : list OrderItem) : Z :=
  foldr (λ it acc, if decide (itemId it = k) then quantity it + acc else acc)
        0 its.

(** The stock record of product [k] once every item of [its] was reserved. *)
Definition after_reserving (k : string) (its : list OrderItem)
    (stock : InventoryItem) : InventoryItem :=
  mkInventoryItem (i_name stock)
    (i_quantity stock - requested k its)
    (if bool_decide (k ∈ itemId <$> its)
     then Some (default 0 (i_reserved stock) + requested k its)
     else i_reserved stock).


End Inventory.

Module Sagas.
Import Workflow.

(** The three ledger entries [orderWorkflow] can push. *)
Definition cancel_entry (od : OrderData) : CompensationStep :=
  mkCompensationStep type_cancelOrder (mkCompensationData (orderId od) None None).
Definition release_entry (od : OrderData) : CompensationStep :=
  mkCompensationStep type_releaseInventory
    (mkCompensationData (orderId od) (Some (items od)) None).
Definition refund_entry (od : OrderData) (pid : option string) : CompensationStep :=
  mkCompensationStep type_refundPayment (mkCompensationData (orderId od) None pid).

Definition refund_if_paid (od : OrderData) (r : ActivityResult)
    : list CompensationStep :=
  if truthy (paymentId r) then [refund_entry od (paymentId r)] else [].

Definition payment_error (r : ActivityResult) : thrown :=
  JsError ("Payment failed: " +:+ or_else (message r) "Unknown error").

Section Paths.
Context {W : Type}.
Variables (gw : Gateway W) (od : OrderData) (w : W).

(** The seven ways through the [try] block of [orderWorkflow], each with
    the value it yields (a result, or what it throws) and the state it
    leaves: ledger, call log, world. *)
Inductive forward_path : (WorkflowResult + thrown) * State W → Prop :=
  | create_raised e w1 :
      createOrder gw od w = (inr e, w1) →
      forward_path (inr e, mkState [] [mkCall CreateOrder (Raised e)] w1)
  | reserve_raised r1 w1 e w2 :
      createOrder gw od w = (inl r1, w1) →
      reserveInventory gw (orderId od) (items od) w1 = (inr e, w2) →
      forward_path
        (inr e, mkState [cancel_entry od]
                  [mkCall CreateOrder (Returned r1);
                   mkCall ReserveInventory (Raised e)] w2)
  | reserve_failed r1 w1 r2 w2 :
      createOrder gw od w = (inl r1, w1) →
      reserveInventory gw (orderId od) (items od) w1 = (inl r2, w2) →
      success r2 = false →
      forward_path
        (inr (JsError "Insufficient inventory"),
         mkState [cancel_entry od; release_entry od]
           [mkCall CreateOrder (Returned r1);
            mkCall ReserveInventory (Returned r2)] w2)
  | payment_raised r1 w1 r2 w2 e w3 :
      createOrder gw od w = (inl r1, w1) →
      reserveInventory gw (orderId od) (items od) w1 = (inl r2, w2) →
      success r2 = true →
      processPayment gw (orderId od) (userId od) (totalAmount od) w2
        = (inr e, w3) →
      forward_path
        (inr e, mkState [cancel_entry od; release_entry od]
                  [mkCall CreateOrder (Returned r1);
                   mkCall ReserveInventory (Returned r2);
                   mkCall ProcessPayment (Raised e)] w3)
  | payment_failed r1 w1 r2 w2 r3 w3 :
      createOrder gw od w = (inl r1, w1) →
      reserveInventory gw (orderId od) (items od) w1 = (inl r2, w2) →
      success r2 = true →
      processPayment gw (orderId od) (userId od) (totalAmount od) w2
        = (inl r3, w3) →
      success r3 = false →
      forward_path
        (inr (payment_error r3),
         mkState [cancel_entry od; release_entry od]
           [mkCall CreateOrder (Returned r1);
            mkCall ReserveInventory (Returned r2);
            mkCall ProcessPayment (Returned r3)] w3)
  | email_raised r1 w1 r2 w2 r3 w3 e w4 :
      createOrder gw od w = (inl r1, w1) →
      reserveInventory gw (orderId od) (items od) w1 = (inl r2, w2) →
      success r2 = true →
      processPayment gw (orderId od) (userId od) (totalAmount od) w2
        = (inl r3, w3) →
      success r3 = true →
      sendConfirmationEmail gw (orderId od) (userId od) (totalAmount od) w3
        = (inr e, w4) →
      forward_path
        (inr e, mkState ([cancel_entry od; release_entry od]
                         ++ refund_if_paid od r3)
                  [mkCall CreateOrder (Returned r1);
                   mkCall ReserveInventory (Returned r2);
                   mkCall ProcessPayment (Returned r3);
                   mkCall SendConfirmationEmail (Raised e)] w4)
  | all_returned r1 w1 r2 w2 r3 w3 r4 w4 :
      createOrder gw od w = (inl r1, w1) →
      reserveInventory gw (orderId od) (items od) w1 = (inl r2, w2) →
      success r2 = true →
      processPayment gw (orderId od) (userId od) (totalAmount od) w2
        = (inl r3, w3) →
      success r3 = true →
      sendConfirmationEmail gw (orderId od) (userId od) (totalAmount od) w3
        = (inl r4, w4) →
      forward_path
        (inl (mkWorkflowResult true (orderId od) "Order processed successfully"
                (paymentId r3) None),
         mkState ([cancel_entry od; release_entry od] ++ refund_if_paid od r3)
           [mkCall CreateOrder (Returned r1);
            mkCall ReserveInventory (Returned r2);
            mkCall ProcessPayment (Returned r3);
            mkCall SendConfirmationEmail (Returned r4)] w4).

End Paths.

(** The message of the error that a forward call hands to the [catch]
    block: the message of what the call raised, or the message the workflow
    builds from a failure result it inspects. *)
Definition originating_error (c : Call) : option string :=
  match resolution c with
  | Raised e => Some (error_message e)
  | Returned r =>
      if success r then None
      else match capability c with
           | ReserveInventory => Some "Insufficient inventory"
           | ProcessPayment => Some (error_message (payment_error r))
           | _ => None
           end
  end.


(** Calls made after the forward phase: the three undo activities and the
    cancellation email, which the activities file also lists as a
    compensation activity. *)
Definition compensation_phase (log : list Call) : list Capability :=
  List.filter (λ c, negb (is_forward c)) (capability <$> log).

(** Forward steps that returned success and left something to undo: for the
    payment step, a payment identifier. *)
Definition undoable (c : Call) : bool :=
  is_forward (capability c) && returned_success c &&
  match capability c, resolution c with
  | ProcessPayment, Returned r => truthy (paymentId r)
  | _, _ => true
  end.

Definition forward_undoable (log : list Call) : list Capability :=
  capability <$> List.filter undoable log.

(** The reverse-compensation property as the specification words it. *)
Definition unwinds_succeeded_steps {W} (gw : Gateway W) (od : OrderData) (w : W)
    : Prop :=
  ∀ r s, run gw od w = (inl r, s) → w_success r = false →
    compensations_executed (calls s)
    = omap compensation_of (reverse (forward_succeeded (calls s))).


(** *** Gateways over a world without state, for closed examples *)

Definition stub (create reserve pay email cancel release refund cmail
                 : M unit ActivityResult) : Gateway unit :=
  mkGateway unit (λ _, create) (λ _ _, reserve) (λ _ _ _, pay) (λ _ _ _, email)
    (λ _, cancel) (λ _, release) (λ _, refund) (λ _ _ _, cmail).

Definition fine : M unit ActivityResult := mret (Activities.ok_result None).
Definition paid : M unit ActivityResult :=
  mret (mkActivityResult true None (Some "payment-1") None None).

(** Payment succeeds without an identifier, then the confirmation email
    cannot be sent. *)
Definition gw_unpaid_email_down : Gateway unit :=
  stub fine fine fine (throw (JsError "SMTP unreachable")) fine fine fine fine.


(** The confirmation email answers with a failure result. *)
Definition gw_email_refused : Gateway unit :=
  stub fine fine paid (mret (Activities.failed_result "Mailbox full"))
       fine fine fine fine.

(** The card is declined, and then nothing of the unwind works: releasing
    throws, cancelling answers with a failure result, the cancellation email
    throws. *)
Definition gw_unwind_broken : Gateway unit :=
  stub fine fine (mret (Activities.failed_result "Card declined")) fine
       (mret (Activities.failed_result "Order store down"))
       (throw (JsError "Inventory service down"))
       fine
       (throw JsOther).


(** The first forward step throws. *)
Definition gw_create_down : Gateway unit :=
  stub (throw (JsError "Order store down")) fine paid fine fine fine fine fine.

Definition order_o1 : OrderData :=
  mkOrderData "o1" "user-123"
    [mkOrderItem "item-1" "Product 1" 2 100;
     mkOrderItem "item-2" "Product 2" 1 200] 400.

(** Test case 2 of [src/client.ts], with the order id of scenario B. *)
Definition order_o2 : OrderData :=
  mkOrderData "o2" "user-456"
    [mkOrderItem "item-1" "Product 1" 5 300;
     mkOrderItem "item-3" "Product 3" 3 400] 2700.

(** An order for more of product 1 than the initial stock holds. *)
Definition order_o3 : OrderData :=
  mkOrderData "o3" "user-789" [mkOrderItem "item-1" "Product 1" 11 50] 550.

(** Scenario B as the specification words it: the error field of the
    outcome is the message of the payment activity. *)
Definition scenario_B_error (amb : Activities.Ambient) : Prop :=
  ∀ r s,
    run (Worker.activities amb) order_o2 Activities.initial_stores = (inl r, s) →
    w_error r = Some "Payment failed: Amount exceeds limit of 1000".

End Sagas.

Module Outcomes.
Import Workflow.

(** The outcome property as the specification words it, compensations being
    the three undo activities: success exactly when none was executed. *)
Definition success_iff_nothing_compensated {W} (gw : Gateway W)
    (od : OrderData) (w : W) : Prop :=
  ∀ r s, run gw od w = (inl r, s) →
    (w_success r = true ↔ compensations_executed (calls s) = []).

End Outcomes.

Module Stock.
Import Activities Inventory.

(** No product of the inventory has a negative quantity. *)
Definition stock_nonneg (st : Stores) : Prop :=
  map_Forall (λ _ stock, 0 ≤ i_quantity stock) (inventory st).

(** The product of [it] exists with at least the requested quantity: the
    negation of the test [!stock || stock.quantity < item.quantity]. *)
Definition in_stock (st : Stores) (it : OrderItem) : Prop :=
  ∃ stock, inventory st !! itemId it = Some stock
    ∧ quantity it ≤ i_quantity stock.

(** The three maps agree; the count of ambient reads may differ. *)
Definition same_stores (a b : Stores) : Prop :=
  orders a = orders b ∧ inventory a = inventory b ∧ payments a = payments b.

(** The reservation counter of a stock record, [stock.reserved || 0]. *)
Definition reserved_or_0 (stock : InventoryItem) : Z :=
  default 0 (i_reserved stock).

(** The code computes on doubles.  Sums and differences of integers are
    exact there as long as operands and result lie between 0 and 2^53; the
    laws that depend on exact sums are stated for quantities in that
    range. *)
Definition max_exact : Z := 9007199254740992.

Definition exact (z : Z) : Prop := 0 ≤ z ≤ max_exact.

(** Requests and stock for which every number [reserveInventoryActivity]
    computes is exact: requested quantities in range, stock quantities in
    range (a deduction only lowers them, never below 0), counters not
    negative and in range once the whole request is added. *)
Definition exact_reserve (st : Stores) (its : list OrderItem) : Prop :=
  Forall (λ it, exact (quantity it)) its
  ∧ map_Forall (λ k stock,
      exact (i_quantity stock) ∧ 0 ≤ reserved_or_0 stock
      ∧ exact (reserved_or_0 stock + requested k its)) (inventory st).

(** The same for [releaseInventoryActivity]: quantities in range once the
    whole request is added back, counters in range (the subtraction is
    floored at 0). *)
Definition exact_release (st : Stores) (its : list OrderItem) : Prop :=
  Forall (λ it, exact (quantity it)) its
  ∧ map_Forall (λ k stock,
      0 ≤ i_quantity stock ∧ exact (i_quantity stock + requested k its)
      ∧ exact (reserved_or_0 stock)) (inventory st).

End Stock.

(* ===================================================================== *)
(** ** Properties of the activities *)
(* ===================================================================== *)

Module ActivityFacts.
Import Activities.

Lemma Qltb_true (x y : Q) : (x < y)%Q → Qltb x y = true.
Proof.
  intros H. unfold Qltb. apply negb_true_iff.
  destruct (Qle_bool y x) eqn:E; [|done].
  apply Qle_bool_iff in E. exfalso. by apply (Qlt_not_le x y).
Qed.

(** The business rule of [processPaymentActivity] is decided before the
    random percentage is looked at: the two draws are consumed, the stores
    are left as they were. *)
Lemma processPayment_over_limit amb oid uid amt st :
  (1000 < amt)%Q →
  processPaymentActivity amb oid uid amt st =
    (inl (failed_result "Payment failed: Amount exceeds limit of 1000"),
     mkStores (orders st) (inventory st) (payments st) (S (S (reads st)))).
Proof.
  intros H. unfold processPaymentActivity, mbind, M_bind, read. cbn.
  by rewrite (Qltb_true _ _ H).
Qed.

(** C3. For every amount strictly above 1000 and whatever the ambient random
    source yields, [processPaymentActivity] returns the result
    [{success: false, message: 'Payment failed: Amount exceeds limit of 1000'}]
    and does not throw: no path that throws is reached.  The same holds
    behind the retrying proxy, which has nothing to retry. *)
Theorem C3_limit_checked_before_transient_paths
    (amb : Ambient) (oid uid : string) (amt : Q) (st : Stores) :
  (1000 < amt)%Q →
  ∃ st',
    processPaymentActivity amb oid uid amt st =
      (inl (failed_result "Payment failed: Amount exceeds limit of 1000"), st')
    ∧ Workflow.processPayment (Worker.activities amb) oid uid amt st =
      (inl (failed_result "Payment failed: Amount exceeds limit of 1000"), st')
    ∧ payments st' = payments st.
Proof.
  intros H. eexists. split; [by apply processPayment_over_limit|].
  split; [|done].
  cbn. unfold Worker.proxy, Worker.retry, try_catch. cbn.
  by rewrite (processPayment_over_limit _ _ _ _ _ H).
Qed.

Lemma C3_witness :
  ∃ st',
    processPaymentActivity Worker.ambient0 "o2" "user-456" 2700 initial_stores =
      (inl (failed_result "Payment failed: Amount exceeds limit of 1000"), st')
    ∧ Workflow.processPayment (Worker.activities Worker.ambient0)
        "o2" "user-456" 2700 initial_stores =
      (inl (failed_result "Payment failed: Amount exceeds limit of 1000"), st')
    ∧ payments st' = payments initial_stores.
Proof.
  apply (C3_limit_checked_before_transient_paths
           Worker.ambient0 "o2" "user-456" 2700 initial_stores).
  reflexivity.
Defined.

(** *** The reservation loop *)

Section Reserve.
Import Inventory.

Lemma requested_absent (k : string) (its : list OrderItem) :
  k ∉ itemId <$> its → requested k its = 0.
Proof.
  induction its as [|a its IH]; [done|].
  rewrite fmap_cons, not_elem_of_cons. intros [Hne Hnot].
  cbn. rewrite decide_False by done. by apply IH.
Qed.

Lemma after_reserving_nil (k : string) (stock : InventoryItem) :
  after_reserving k [] stock = stock.
Proof.
  destruct stock as [n q r]. unfold after_reserving. cbn.
  f_equal. lia.
Qed.

(** One more item in front, for the product it names. *)
Lemma after_reserving_cons_eq (a : OrderItem) (its : list OrderItem)
    (stock : InventoryItem) :
  after_reserving (itemId a) its
    (mkInventoryItem (i_name stock) (i_quantity stock - quantity a)
       (Some (default 0 (i_reserved stock) + quantity a)))
  = after_reserving (itemId a) (a :: its) stock.
Proof.
  unfold after_reserving. cbn [i_name i_quantity i_reserved requested foldr].
  rewrite decide_True by done.
  rewrite fmap_cons, (bool_decide_eq_true_2 (_ ∈ _ :: _)) by apply list_elem_of_here.
  fold (requested (itemId a) its).
  f_equal; [lia|].
  case_bool_decide as Hin; cbn.
  - f_equal. lia.
  - rewrite (requested_absent _ _ Hin). f_equal. lia.
Qed.

Lemma after_reserving_cons_ne (k : string) (a : OrderItem)
    (its : list OrderItem) (stock : InventoryItem) :
  itemId a ≠ k →
  after_reserving k (a :: its) stock = after_reserving k its stock.
Proof.
  intros Hne. unfold after_reserving. cbn [requested foldr].
  rewrite decide_False by done. fold (requested k its).
  rewrite (bool_decide_ext (k ∈ itemId <$> a :: its) (k ∈ itemId <$> its)); [done|].
  rewrite fmap_cons, elem_of_cons. split; [intros [->|]|auto]; done.
Qed.

(** What one passing iteration does. *)
Lemma reserve_item_passes (a : OrderItem) (st st1 : Stores) :
  reserve_item a st = (inl None, st1) →
  ∃ stock, inventory st !! itemId a = Some stock
    ∧ st1 = set_inventory (insert (itemId a)
              (mkInventoryItem (i_name stock) (i_quantity stock - quantity a)
                 (Some (default 0 (i_reserved stock) + quantity a)))) st.
Proof.
  unfold reserve_item, mbind, M_bind, gets, modify, mret, M_ret.
  destruct (inventory st !! itemId a) as [stock|] eqn:E; [|done].
  destruct (i_quantity stock <? quantity a); [done|].
  intros [= <-]. eauto.
Qed.

Lemma reserve_loop_cons_passes (a : OrderItem) (rest : list OrderItem)
    (st st1 : Stores) :
  reserve_loop (a :: rest) st = (inl None, st1) →
  ∃ st0, reserve_item a st = (inl None, st0)
    ∧ reserve_loop rest st0 = (inl None, st1).
Proof.
  cbn [reserve_loop]. unfold mbind at 1, M_bind at 1.
  destruct (reserve_item a st) as [[[res|]|e] st0]; [done| |done].
  eauto.
Qed.

(** The stores after a pass over [pre] that met no shortage. *)
Lemma reserve_loop_retained (pre : list OrderItem) (st st1 : Stores) :
  reserve_loop pre st = (inl None, st1) →
  (∀ k, inventory st1 !! k = after_reserving k pre <$> inventory st !! k)
  ∧ orders st1 = orders st ∧ payments st1 = payments st.
Proof.
  revert st. induction pre as [|a pre IH]; intros st H.
  - injection H as <-. split; [|done]. intros k.
    destruct (inventory st !! k) as [stock|]; [|done]. cbn.
    by rewrite after_reserving_nil.
  - apply reserve_loop_cons_passes in H as (st0 & Ha & Hrest).
    apply reserve_item_passes in Ha as (stock & Hstock & ->).
    apply IH in Hrest as (Hinv & Ho & Hp). split; [|done].
    intros k. rewrite Hinv. cbn.
    destruct (decide (itemId a = k)) as [<-|Hne].
    + rewrite lookup_insert_eq, Hstock. cbn. f_equal.
      apply after_reserving_cons_eq.
    + rewrite lookup_insert_ne by done.
      destruct (inventory st !! k) as [stk|]; [|done]. cbn.
      by rewrite after_reserving_cons_ne.
Qed.





(** The stock of the first product stays lowered after the failed call. *)
Example partial_deduction_visible :
  ∃ st1,
    reserveInventoryActivity "o9"
      [mkOrderItem "item-1" "Product 1" 2 100;
       mkOrderItem "item-2" "Product 2" 6 200] initial_stores =
      (inl (failed_result "Insufficient inventory for product item-2"), st1)
    ∧ inventory initial_stores !! "item-1"
      = Some (mkInventoryItem "Product 1" 10 None)
    ∧ inventory st1 !! "item-1"
      = Some (mkInventoryItem "Product 1" 8 (Some 2)).
Proof. eexists. split; [reflexivity|]. split; reflexivity. Qed.

End Reserve.

(** *** The compensation activities *)

Section Compensations.
Variable amb : Ambient.

Lemma cancelOrder_succeeds (oid : string) (st : Stores) :
  ∃ st', cancelOrderActivity amb oid st =
           (inl (ok_result (Some "Order cancelled")), st')
    ∧ (orders st !! oid = None → st' = st).
Proof.
  unfold cancelOrderActivity, mbind, M_bind, gets, modify, read, mret, M_ret.
  destruct (orders st !! oid) as [o|]; eexists; (split; [reflexivity|done]).
Qed.

Lemma refundPayment_succeeds (oid pid : string) (st : Stores) :
  ∃ st', refundPaymentActivity amb oid pid st =
           (inl (ok_result (Some "Payment refunded")), st')
    ∧ (payments st !! pid = None → st' = st).
Proof.
  unfold refundPaymentActivity, mbind, M_bind, gets, modify, read, mret, M_ret.
  destruct (payments st !! pid) as [p|]; eexists; (split; [reflexivity|done]).
Qed.

Lemma release_item_returns (item : OrderItem) (st : Stores) :
  ∃ st', release_item item st = (inl tt, st')
    ∧ (inventory st !! itemId item = None → st' = st)
    ∧ dom (inventory st') = dom (inventory st).
Proof.
  unfold release_item, mbind, M_bind, gets, modify, mret, M_ret.
  destruct (inventory st !! itemId item) as [stock|] eqn:E;
    eexists; (split; [reflexivity|split; [done|]]); [|done].
  cbn. apply dom_insert_lookup_L. by rewrite E.
Qed.

Lemma release_loop_returns (its : list OrderItem) (st : Stores) :
  ∃ st', release_loop its st = (inl tt, st')
    ∧ ((∀ it, it ∈ its → inventory st !! itemId it = None) → st' = st)
    ∧ dom (inventory st') = dom (inventory st).
Proof.
  revert st. induction its as [|a its IH]; intros st.
  - exists st. by repeat split.
  - destruct (release_item_returns a st) as (st0 & Ha & Hskip & Hdom).
    destruct (IH st0) as (st' & Hrest & Hskip' & Hdom').
    exists st'. cbn [release_loop]. unfold mbind, M_bind. rewrite Ha.
    split; [done|]. split; [|congruence].
    intros Hnone.
    assert (st0 = st) as -> by (apply Hskip, Hnone, list_elem_of_here).
    apply Hskip'. intros it Hit. by apply Hnone, list_elem_of_further.
Qed.

Lemma releaseInventory_succeeds (oid : string) (its : list OrderItem)
    (st : Stores) :
  ∃ st', releaseInventoryActivity oid its st =
           (inl (ok_result (Some "Inventory released")), st')
    ∧ ((∀ it, it ∈ its → inventory st !! itemId it = None) → st' = st)
    ∧ dom (inventory st') = dom (inventory st).
Proof.
  destruct (release_loop_returns its st) as (st' & H & Hskip & Hdom).
  exists st'. unfold releaseInventoryActivity, mbind, M_bind. by rewrite H.
Qed.

(** C10. [cancelOrderActivity], [releaseInventoryActivity] and
    [refundPaymentActivity] return [{success: true}] from every state of the
    stores and for every argument; none has a failure result or throws.  A
    target absent from its store (order, product, payment) is skipped: when
    every target is absent the stores are left exactly as they were, and
    releasing never adds a product to the inventory. *)
Theorem C10_compensations_report_success
    (oid pid : string) (its : list OrderItem) (st : Stores) :
  (∃ st', cancelOrderActivity amb oid st =
            (inl (ok_result (Some "Order cancelled")), st')
     ∧ (orders st !! oid = None → st' = st))
  ∧ (∃ st', releaseInventoryActivity oid its st =
            (inl (ok_result (Some "Inventory released")), st')
     ∧ ((∀ it, it ∈ its → inventory st !! itemId it = None) → st' = st)
     ∧ dom (inventory st') = dom (inventory st))
  ∧ (∃ st', refundPaymentActivity amb oid pid st =
            (inl (ok_result (Some "Payment refunded")), st')
     ∧ (payments st !! pid = None → st' = st)).
Proof.
  split; [apply cancelOrder_succeeds|].
  split; [apply releaseInventory_succeeds|apply refundPayment_succeeds].
Qed.

End Compensations.

(** The three compensations on targets that exist in no store. *)
Lemma C10_witness :
  let ghost := [mkOrderItem "item-9" "Unknown" 4 10] in
  cancelOrderActivity Worker.ambient0 "no-such-order" initial_stores =
    (inl (ok_result (Some "Order cancelled")), initial_stores)
  ∧ releaseInventoryActivity "no-such-order" ghost initial_stores =
    (inl (ok_result (Some "Inventory released")), initial_stores)
  ∧ refundPaymentActivity Worker.ambient0 "no-such-order" "no-such-payment"
      initial_stores =
    (inl (ok_result (Some "Payment refunded")), initial_stores).
Proof.
  intros ghost.
  destruct (C10_compensations_report_success Worker.ambient0
              "no-such-order" "no-such-payment" ghost initial_stores)
    as ((s1 & E1 & K1) & (s2 & E2 & K2 & _) & (s3 & E3 & K3)).
  rewrite E1, E2, E3.
  rewrite (K1 eq_refl), (K3 eq_refl).
  rewrite K2; [done|].
  intros it Hit. apply list_elem_of_singleton in Hit as ->. reflexivity.
Defined.

End ActivityFacts.

(* ===================================================================== *)
(** ** Properties of the workflow *)
(* ===================================================================== *)

Module WorkflowFacts.
Import Workflow Sagas Outcomes.

Ltac run_monad :=
  unfold mbind, M_bind, mret, M_ret, try_catch, throw, gets, modify, when,
    push, sleep, invoke; cbn.

Section Generic.
Context {W : Type}.
Variable gw : Gateway W.

(** The [try] block follows one of the seven paths. *)
Lemma try_block_path (od : OrderData) (w : W) :
  forward_path gw od w (try_block gw od (mkState [] [] w)).
Proof.
  unfold try_block. run_monad.
  destruct (createOrder gw od w) as [[r1|e] w1] eqn:E1; cbn;
    [|by apply create_raised].
  destruct (reserveInventory gw (orderId od) (items od) w1)
    as [[r2|e] w2] eqn:E2; cbn; [|by eapply reserve_raised].
  destruct (success r2) eqn:S2; cbn; [|by eapply reserve_failed].
  destruct (processPayment gw (orderId od) (userId od) (totalAmount od) w2)
    as [[r3|e] w3] eqn:E3; cbn; [|by eapply payment_raised].
  destruct (success r3) eqn:S3; cbn; [|by eapply payment_failed].
  pose proof (email_raised gw od w r1 w1 r2 w2 r3 w3) as Hraised.
  pose proof (all_returned gw od w r1 w1 r2 w2 r3 w3) as Hreturned.
  unfold refund_if_paid in Hraised, Hreturned.
  destruct (truthy (paymentId r3)); cbn;
    destruct (sendConfirmationEmail gw (orderId od) (userId od)
                (totalAmount od) w3) as [[r4|e] w4] eqn:E4; cbn;
    by (eapply Hreturned || eapply Hraised).
Qed.

(** One compensation call: it is logged, whatever it does, and the ledger
    is not touched. *)
Lemma compensate_logged (step : CompensationStep) (s : State W) :
  ∃ res w',
    try_catch (compensate gw step ;; sleep "1s") (λ _, mret tt) s
    = (inl tt, mkState (compensationSteps s)
                 (calls s ++ [mkCall (capability_of_type (type step)) res]) w').
Proof.
  unfold compensate. run_monad.
  destruct (type step); cbn;
    match goal with
    | |- context [?f gw (data step) (world s)] =>
        destruct (f gw (data step) (world s)) as [[r|e] w']
    end; cbn; eauto.
Qed.

(** The loop from index [n - 1] down to [0] never throws when [n] is within
    the ledger; it calls the compensation of each entry it passes, last
    entry first, and leaves the ledger as it is. *)
Lemma compensation_loop_sweeps (n : nat) (s : State W) :
  (n ≤ length (compensationSteps s))%nat →
  ∃ cs w',
    compensation_loop gw n s
    = (inl tt, mkState (compensationSteps s) (calls s ++ cs) w')
    ∧ capability <$> cs
      = (λ st, capability_of_type (type st))
          <$> reverse (take n (compensationSteps s)).
Proof.
  revert s. induction n as [|i IH]; intros s Hn.
  - exists [], (world s). cbn. rewrite app_nil_r. by destruct s.
  - destruct (lookup_lt_is_Some_2 (compensationSteps s) i) as [step Hstep];
      [lia|].
    destruct (compensate_logged step s) as (res & w1 & Hcall).
    destruct (IH (mkState (compensationSteps s)
                    (calls s ++ [mkCall (capability_of_type (type step)) res])
                    w1)) as (cs & w' & Hloop & Hcaps); [cbn; lia|].
    cbn [compensationSteps calls] in Hloop, Hcaps.
    exists (mkCall (capability_of_type (type step)) res :: cs), w'. split.
    + cbn [compensation_loop]. unfold mbind at 1, M_bind at 1, gets at 1.
      rewrite Hstep. unfold mbind at 1, M_bind at 1. rewrite Hcall, Hloop.
      by rewrite <- app_assoc.
    + rewrite (take_S_r _ _ _ Hstep), reverse_app, fmap_cons. cbn.
      by rewrite Hcaps.
Qed.

(** The [catch] block always returns the compensated outcome: it sweeps the
    whole ledger backwards, then attempts the cancellation email, and
    reports the message of the error it was entered with. *)
Lemma catch_block_returns (od : OrderData) (e : thrown) (s : State W) :
  ∃ cs em w',
    catch_block gw od e s
    = (inl (mkWorkflowResult false (orderId od) "Order cancelled and refunded"
              None (Some (error_message e))),
       mkState (compensationSteps s)
         (calls s ++ cs ++ [mkCall SendCancellationEmail em]) w')
    ∧ capability <$> cs
      = (λ st, capability_of_type (type st)) <$> reverse (compensationSteps s).
Proof.
  destruct (compensation_loop_sweeps (length (compensationSteps s)) s)
    as (cs & w1 & Hloop & Hcaps); [done|].
  rewrite firstn_all in Hcaps.
  unfold catch_block. unfold mbind at 1, M_bind at 1, gets at 1.
  unfold mbind at 1, M_bind at 1. rewrite Hloop.
  run_monad.
  destruct (sendCancellationEmail gw (orderId od) (userId od)
              (error_message e) w1) as [[r|e'] w'] eqn:Email; cbn;
    eexists cs, _, w'; rewrite <- app_assoc; by split.
Qed.

(** A run is a path through the [try] block, followed by the [catch]
    block when the path ends in a throw. *)
Lemma run_outcome (od : OrderData) (w : W) :
  ∃ v s1, forward_path gw od w (v, s1)
    ∧ run gw od w = match v with
                    | inl r => (inl r, s1)
                    | inr e => catch_block gw od e s1
                    end.
Proof.
  pose proof (try_block_path od w) as Hpath.
  unfold run, orderWorkflow, try_catch.
  destruct (try_block gw od (mkState [] [] w)) as [[r|e] s1]; eauto.
Qed.




End Generic.

(** Case analysis of a run of [gw] on [od] from [w]: one goal per path, in
    which [Hrun] gives the value and final state of [run], the calls of the
    unwind being named one by one. *)
Ltac name_calls cs Hcaps :=
  cbn in Hcaps;
  destruct cs as [|[? ?] [|[? ?] [|[? ?] [|? ?]]]];
  cbn in Hcaps; try discriminate Hcaps; simplify_eq/=.

Ltac by_path gw od w Hrun :=
  let v := fresh "v" in let s1 := fresh "s1" in
  let Hpath := fresh "Hpath" in
  let cs := fresh "cs" in let em := fresh "em" in let w' := fresh "w'" in
  let Hcatch := fresh "Hcatch" in let Hcaps := fresh "Hcaps" in
  destruct (run_outcome gw od w) as (v & s1 & Hpath & Hrun);
  inversion Hpath; subst; clear Hpath;
  try match type of Hrun with
      | _ = catch_block _ _ ?e ?s =>
          destruct (catch_block_returns gw od e s)
            as (cs & em & w' & Hcatch & Hcaps);
          rewrite Hcatch in Hrun; clear Hcatch;
          unfold refund_if_paid in *;
          try match goal with
              | r : ActivityResult |- _ =>
                  match type of Hcaps with
                  | context [truthy (paymentId r)] =>
                      destruct (truthy (paymentId r)) eqn:?
                  end
              end;
          name_calls cs Hcaps
      end.

(** Every way for [H : c ∈ l] to hold in a concrete log [l]. *)
Ltac in_log H :=
  repeat (apply elem_of_cons in H as [H|H]; [try discriminate H|]);
  try (by apply elem_of_nil in H).


Section Runs.
Context {W : Type}.
Variable gw : Gateway W.

(** C8. Whatever the activities do (return a result, return a failure
    result, throw), in the forward steps, in the compensations or in the
    cancellation email, [orderWorkflow] returns a [WorkflowResult] and
    throws nothing to its caller; and a forward call that threw is reported
    as the compensated outcome, [success: false] with the message of what was
    thrown. *)
Theorem C8_workflow_always_returns (od : OrderData) (w : W) :
  ∃ r s, run gw od w = (inl r, s)
    ∧ ∀ c, c ∈ calls s → is_forward (capability c) = true → raised c = true →
        w_success r = false
        ∧ w_message r = "Order cancelled and refunded"
        ∧ w_error r = originating_error c.
Proof.
  by_path gw od w Hrun; eexists _, _; (split; [exact Hrun|]);
    cbn; intros c Hin Hfw Hraised;
    repeat (apply elem_of_cons in Hin as [->|Hin]);
    try (by apply elem_of_nil in Hin); try discriminate; done.
Qed.

(** The forward capabilities are those of the catalog. *)
Lemma is_forward_catalog (c : Capability) : is_forward c = true ↔ c ∈ catalog.
Proof.
  unfold catalog.
  destruct c; cbn; split; intros H; try reflexivity; try discriminate H;
    try (repeat first [apply list_elem_of_here | apply list_elem_of_further];
         fail);
    repeat (apply elem_of_cons in H as [H|H]; try discriminate H);
    by apply elem_of_nil in H.
Qed.

(** C7. Every run ends in exactly one of two shapes: either
    [{success: true, orderId, message: 'Order processed successfully',
    paymentId}] with no [error], the payment identifier being the one the
    payment call returned, or [{success: false, orderId, error, message:
    'Order cancelled and refunded'}] with [error] set.  [success] is true
    exactly when the compensation phase was not entered: no compensation and
    no cancellation email was called.  A successful run executes no
    compensation; a compensated run executes the compensation of every
    ledger entry, last entry first, and its last call is the cancellation
    email.  So a run executes no compensation exactly when it succeeded or
    when [createOrder] itself threw, which leaves the ledger empty. *)
Theorem C7_success_iff_compensation_phase_not_entered
    (od : OrderData) (w : W) :
  ∃ r s, run gw od w = (inl r, s)
    ∧ (w_success r = true ↔ compensation_phase (calls s) = [])
    ∧ (w_success r = true → compensations_executed (calls s) = [])
    ∧ (w_success r = false →
       (∃ em, last (calls s) = Some (mkCall SendCancellationEmail em))
       ∧ compensations_executed (calls s)
         = (λ st, capability_of_type (type st))
             <$> reverse (compensationSteps s))
    ∧ (compensations_executed (calls s) = []
       ↔ w_success r = true ∨ ∃ e, mkCall CreateOrder (Raised e) ∈ calls s)
    ∧ ((∃ r3, mkCall ProcessPayment (Returned r3) ∈ calls s
          ∧ r = mkWorkflowResult true (orderId od)
                  "Order processed successfully" (paymentId r3) None)
       ∨ (∃ err, r = mkWorkflowResult false (orderId od)
                       "Order cancelled and refunded" None (Some err))).
Proof.
  by_path gw od w Hrun; eexists _, _; (split; [exact Hrun|]); cbn;
    (split; [by split|]); (split; [done|]);
    (split; [intros Hf; try discriminate Hf;
             (split; [by eexists|reflexivity])|]);
    (split;
     [split;
      [ intros H; try discriminate H;
        first [by left | right; eexists; apply list_elem_of_here]
      | intros [H|[e' H]]; try discriminate H; try reflexivity; in_log H ]|]);
    try (by right; eexists);
    left; eexists; (split; [|reflexivity]);
    do 2 apply list_elem_of_further; apply list_elem_of_here.
Qed.


(** In every run the forward activities are called in the order of the Step
    Catalog, a call being made only once the previous one has resolved and
    never after the compensation phase has begun; a successful run calls all
    four.  In a compensated run in which neither [createOrder] nor
    [reserveInventory] returned a failure result, the compensations executed
    are exactly the reverse of the forward steps that returned success and
    left something to undo: [createOrder], [reserveInventory], and
    [processPayment] when it produced a payment identifier. *)
Lemma catalog_order_and_reverse_unwind
    (od : OrderData) (w : W) (r : WorkflowResult) (s : State W) :
  run gw od w = (inl r, s) →
  forward_invoked (calls s) `prefix_of` catalog
  ∧ capability <$> calls s
    = (forward_invoked (calls s) ++ compensation_phase (calls s))%list
  ∧ (w_success r = true → forward_invoked (calls s) = catalog)
  ∧ (w_success r = false →
     (∀ c, c ∈ calls s → capability c ∈ [CreateOrder; ReserveInventory] →
           returned_failure c = false) →
     compensations_executed (calls s)
     = omap compensation_of (reverse (forward_undoable (calls s)))).
Proof.
  intros Hr.
  by_path gw od w Hrun; rewrite Hrun in Hr; injection Hr as <- <-;
    (split; [cbn; by eexists|]); (split; [cbn; done|]); (split; [cbn; done|]);
    intros Hf Hno; try discriminate Hf;
    try match goal with
        | Hc : createOrder gw od w = (inl ?r1, _) |- _ =>
            assert (success r1 = true) as Hs1
              by (apply negb_false_iff,
                    (Hno (mkCall CreateOrder (Returned r1))); set_solver)
        end;
    try match goal with
        | Hc : reserveInventory gw _ _ _ = (inl ?r2, _) |- _ =>
            assert (success r2 = true) as Hs2
              by (apply negb_false_iff,
                    (Hno (mkCall ReserveInventory (Returned r2))); set_solver)
        end;
    try congruence;
    unfold compensations_executed, forward_undoable, undoable, returned_success;
    cbn;
    repeat match goal with
           | H : success _ = _ |- _ => rewrite H
           | H : truthy _ = _ |- _ => rewrite H
           end; reflexivity.
Qed.


(** A failure result of [reserveInventory] still has [releaseInventory]
    in the ledger, and released. *)
Lemma reserve_failure_is_released (od : OrderData) (w : W)
    (r : WorkflowResult) (s : State W) (res : ActivityResult) :
  run gw od w = (inl r, s) →
  mkCall ReserveInventory (Returned res) ∈ calls s →
  success res = false →
  compensationSteps s = [cancel_entry od; release_entry od]
  ∧ compensations_executed (calls s) = [ReleaseInventory; CancelOrder]
  ∧ w_error r = Some "Insufficient inventory".
Proof.
  intros Hr Hin Hres.
  by_path gw od w Hrun; rewrite Hrun in Hr; injection Hr as <- <-;
    cbn in Hin; repeat (apply elem_of_cons in Hin as [Heq|Hin]);
    try (by apply elem_of_nil in Hin); try discriminate Heq;
    try (injection Heq as ->; congruence); done.
Qed.

End Runs.

(** *** Closed runs *)

(** A payment that returned success without a payment identifier leaves
    no refund to run when the confirmation email then throws. *)
Lemma success_without_identifier_is_not_refunded :
  ¬ unwinds_succeeded_steps gw_unpaid_email_down order_o1 tt.
Proof.
  intros H. specialize (H _ _ eq_refl eq_refl). vm_compute in H.
  discriminate H.
Qed.

Lemma unwind_without_refund :
  ∃ r s,
    run gw_unpaid_email_down order_o1 tt = (inl r, s)
    ∧ w_success r = false
    ∧ forward_invoked (calls s) = catalog
    ∧ compensations_executed (calls s) = [ReleaseInventory; CancelOrder]
    ∧ forward_undoable (calls s) = [CreateOrder; ReserveInventory].
Proof.
  eexists _, _. split; [reflexivity|].
  destruct (catalog_order_and_reverse_unwind gw_unpaid_email_down order_o1 tt
              _ _ eq_refl) as (_ & _ & _ & Hrev).
  split; [reflexivity|]. split; [reflexivity|]. split; [|reflexivity].
  rewrite Hrev; [reflexivity|reflexivity|].
  intros c Hin Hcap. cbn in Hin.
  repeat (apply elem_of_cons in Hin as [->|Hin]); try reflexivity.
  by apply elem_of_nil in Hin.
Defined.

(** The first forward call throws: the caller still gets a result. *)
Lemma C8_witness :
  ∃ r s,
    run gw_create_down order_o1 tt = (inl r, s)
    ∧ calls s = [mkCall CreateOrder (Raised (JsError "Order store down"));
                 mkCall SendCancellationEmail
                   (Returned (Activities.ok_result None))]
    ∧ w_success r = false
    ∧ w_error r = Some "Order store down".
Proof.
  destruct (C8_workflow_always_returns gw_create_down order_o1 tt)
    as (r & s & Hrun & Hraised).
  exists r, s. split; [exact Hrun|].
  assert (calls s = [mkCall CreateOrder (Raised (JsError "Order store down"));
                     mkCall SendCancellationEmail
                       (Returned (Activities.ok_result None))]) as Hlog.
  { vm_compute in Hrun. by injection Hrun as <- <-. }
  split; [exact Hlog|].
  destruct (Hraised (mkCall CreateOrder (Raised (JsError "Order store down"))))
    as (Hsucc & _ & Herr); [rewrite Hlog; apply list_elem_of_here|done|done|].
  by split.
Defined.

(** C7, as worded with the three compensations, fails where [createOrder]
    throws: the run is compensated, [success] is false, and nothing was there
    to compensate. *)
Lemma C7_counterexample :
  ¬ success_iff_nothing_compensated gw_create_down order_o1 tt.
Proof.
  intros H. destruct (H _ _ eq_refl) as [_ Hback].
  discriminate (Hback eq_refl).
Qed.



(** The same for the confirmation email, the last forward step. *)
Example email_failure_result_ignored :
  ∃ s, run gw_email_refused order_o1 tt
       = (inl (mkWorkflowResult true "o1" "Order processed successfully"
                 (Some "payment-1") None), s)
    ∧ compensation_phase (calls s) = [].
Proof. eexists. split; reflexivity. Qed.


End WorkflowFacts.

(* ===================================================================== *)
(** ** The workflow over the registered activities *)
(* ===================================================================== *)

Module WorkerFacts.
Import Activities Workflow Sagas Worker ActivityFacts WorkflowFacts.

(** A proxy hands over the result of a first attempt that returns. *)
Lemma proxy_returned {S A} (act : M S A) (s s' : S) (a : A) :
  act s = (inl a, s') → proxy act s = (inl a, s').
Proof.
  intros H. unfold proxy, maximumAttempts. cbn. unfold try_catch.
  by rewrite H.
Qed.

Lemma createOrder_returns (amb : Ambient) (d : OrderData) (st : Stores) :
  ∃ res st', createOrderActivity amb d st = (inl res, st').
Proof.
  unfold createOrderActivity, mbind, M_bind, read, modify, mret, M_ret.
  by eexists _, _.
Qed.

Lemma reserve_loop_returns (its : list OrderItem) (st : Stores) :
  ∃ res st', reserve_loop its st = (inl res, st').
Proof.
  revert st. induction its as [|a its IH]; intros st; [by eexists _, _|].
  cbn [reserve_loop]. unfold mbind at 1, M_bind at 1.
  unfold reserve_item, mbind, M_bind, gets, modify, mret, M_ret.
  destruct (inventory st !! itemId a) as [stock|]; [|by eexists _, _].
  destruct (i_quantity stock <? quantity a); [by eexists _, _|].
  apply IH.
Qed.

Lemma reserveInventory_returns (oid : string) (its : list OrderItem)
    (st : Stores) :
  ∃ res st', reserveInventoryActivity oid its st = (inl res, st').
Proof.
  unfold reserveInventoryActivity, mbind, M_bind.
  destruct (reserve_loop_returns its st) as ([res|] & st' & ->);
    by eexists _, _.
Qed.

(** Scenario A over the registered activities: the four forward steps
    succeed and nothing is compensated. *)
Example scenario_A_succeeds :
  ∃ s, run (activities ambient0) order_o1 initial_stores
       = (inl (mkWorkflowResult true "o1" "Order processed successfully"
                 (Some "payment-0-x") None), s)
    ∧ capability <$> calls s = catalog
    ∧ type <$> compensationSteps s
      = [type_cancelOrder; type_releaseInventory; type_refundPayment].
Proof. eexists. split; [vm_compute; reflexivity|]. split; reflexivity. Qed.

(** Below the ceiling a draw in the timeout band makes every attempt throw:
    the proxy gives up after [maximumAttempts] attempts, two draws each, and
    the workflow receives the failure of the call. *)
Example payment_timeout_exhausts_retries :
  processPayment (activities ambient_timeout) "o1" "user-123" 400 initial_stores
  = (inr (JsError "Activity task failed"),
     mkStores ∅ initial_inventory ∅ 6).
Proof. vm_compute. reflexivity. Qed.

(** C5. For the request with order id [o2] and total 2700, run over the
    registered activities, when the reservation returned success: the calls
    are [createOrder], [reserveInventory], [processPayment], then
    [releaseInventory], [cancelOrder] and the cancellation email; the
    payment call returns the failure result of the amount ceiling; no refund
    entry is in the ledger; and the outcome is [{success: false, orderId:
    'o2', message: 'Order cancelled and refunded'}].  Its [error], though,
    is not the message of the payment result: the workflow puts
    ['Payment failed: '] in front of a message that already starts with it,
    and reports
    ['Payment failed: Payment failed: Amount exceeds limit of 1000']. *)
Theorem C5_scenario_B_outcome
    (amb : Ambient) (uid : string) (its : list OrderItem) (st : Stores)
    (r : WorkflowResult) (s : State Stores) :
  run (activities amb) (mkOrderData "o2" uid its 2700) st = (inl r, s) →
  (∀ c, c ∈ calls s → capability c = ReserveInventory →
        returned_success c = true) →
  r = mkWorkflowResult false "o2" "Order cancelled and refunded" None
        (Some "Payment failed: Payment failed: Amount exceeds limit of 1000")
  ∧ capability <$> calls s
    = [CreateOrder; ReserveInventory; ProcessPayment;
       ReleaseInventory; CancelOrder; SendCancellationEmail]
  ∧ mkCall ProcessPayment
      (Returned (failed_result "Payment failed: Amount exceeds limit of 1000"))
    ∈ calls s
  ∧ type <$> compensationSteps s = [type_cancelOrder; type_releaseInventory].
Proof.
  intros Hr Hres.
  assert (∀ w2, proxy (processPaymentActivity amb "o2" uid 2700) w2
                = (inl (failed_result
                          "Payment failed: Amount exceeds limit of 1000"),
                   mkStores (orders w2) (inventory w2) (payments w2)
                            (S (S (reads w2))))) as Hpay.
  { intros w2. apply proxy_returned, processPayment_over_limit. reflexivity. }
  by_path (activities amb) (mkOrderData "o2" uid its 2700) st Hrun;
    rewrite Hrun in Hr; injection Hr as <- <-;
    cbn [activities createOrder reserveInventory processPayment
         orderId userId items totalAmount] in *;
    repeat match goal with
           | H : proxy (processPaymentActivity _ _ _ _) _ = _ |- _ =>
               rewrite Hpay in H; simplify_eq
           | H : proxy (createOrderActivity _ ?d) ?w = (inr _, _) |- _ =>
               destruct (createOrder_returns amb d w) as (? & ? & Hc);
               rewrite (proxy_returned _ _ _ _ Hc) in H; discriminate H
           | H : proxy (reserveInventoryActivity ?o ?i) ?w = (inr _, _) |- _ =>
               destruct (reserveInventory_returns o i w) as (? & ? & Hc);
               rewrite (proxy_returned _ _ _ _ Hc) in H; discriminate H
           end;
    try discriminate.
  - match goal with
    | Hfail : success ?r2 = false |- _ =>
        specialize (Hres (mkCall ReserveInventory (Returned r2)));
        cbn in Hres; rewrite Hres in Hfail; [discriminate Hfail|set_solver|done]
    end.
  - cbn. repeat split. set_solver.
Qed.

(** The error field of scenario B is not the text the scenario gives. *)
Lemma C5_counterexample : ¬ scenario_B_error ambient0.
Proof.
  intros H. unfold scenario_B_error in H.
  destruct (run (activities ambient0) order_o2 initial_stores)
    as [[r|e] s] eqn:E; vm_compute in E; [|discriminate E].
  specialize (H r s eq_refl). injection E as <- <-. discriminate H.
Qed.

Lemma C5_witness :
  ∃ r s,
    run (activities ambient0) order_o2 initial_stores = (inl r, s)
    ∧ (∀ c, c ∈ calls s → capability c = ReserveInventory →
            returned_success c = true)
    ∧ r = mkWorkflowResult false "o2" "Order cancelled and refunded" None
            (Some "Payment failed: Payment failed: Amount exceeds limit of 1000")
    ∧ capability <$> calls s
      = [CreateOrder; ReserveInventory; ProcessPayment;
         ReleaseInventory; CancelOrder; SendCancellationEmail].
Proof.
  destruct (run (activities ambient0) order_o2 initial_stores)
    as [[r|e] s] eqn:E; [|vm_compute in E; discriminate E].
  assert (∀ c, c ∈ calls s → capability c = ReserveInventory →
               returned_success c = true) as Hres.
  { vm_compute in E. injection E as <- <-. intros c Hin Hcap. cbn in Hin.
    repeat (apply elem_of_cons in Hin as [->|Hin]); try discriminate Hcap;
      [reflexivity|by apply elem_of_nil in Hin]. }
  exists r, s. split; [reflexivity|]. split; [exact Hres|].
  destruct (C5_scenario_B_outcome ambient0 "user-456"
              [mkOrderItem "item-1" "Product 1" 5 300;
               mkOrderItem "item-3" "Product 3" 3 400]
              initial_stores r s E Hres) as (Hr & Hcalls & _ & _).
  by split.
Defined.

(** C1. At an order for 11 units of a product stocked 10 times,
    [reserveInventory] returns a failure result, yet the ledger holds the
    [releaseInventory] entry, pushed before the result is inspected: the
    unwind releases, then cancels, and the stock of the product ends at 21,
    above what it was before the order. *)
Theorem C1_release_entry_pushed_before_result_is_checked :
  ∃ r s,
    run (activities ambient0) order_o3 initial_stores = (inl r, s)
    ∧ mkCall ReserveInventory
        (Returned (failed_result "Insufficient inventory for product item-1"))
      ∈ calls s
    ∧ type <$> compensationSteps s = [type_cancelOrder; type_releaseInventory]
    ∧ compensations_executed (calls s) = [ReleaseInventory; CancelOrder]
    ∧ w_error r = Some "Insufficient inventory"
    ∧ inventory initial_stores !! "item-1"
      = Some (mkInventoryItem "Product 1" 10 None)
    ∧ inventory (world s) !! "item-1"
      = Some (mkInventoryItem "Product 1" 21 (Some 0)).
Proof.
  eexists _, _. split; [vm_compute; reflexivity|].
  split; [cbn; set_solver|]. repeat split.
Qed.

(** C2. In the same run the forward activities are called in catalog order,
    [createOrder] then [reserveInventory], and only [createOrder] returned
    success: the reverse of the succeeded steps that have a compensation is
    [cancelOrder] alone, but the unwind executed [releaseInventory] and then
    [cancelOrder]. *)
Theorem C2_unwind_differs_from_reverse_of_succeeded_steps :
  ∃ r s,
    run (activities ambient0) order_o3 initial_stores = (inl r, s)
    ∧ w_success r = false
    ∧ forward_invoked (calls s) = [CreateOrder; ReserveInventory]
    ∧ forward_succeeded (calls s) = [CreateOrder]
    ∧ omap compensation_of (reverse (forward_succeeded (calls s)))
      = [CancelOrder]
    ∧ compensations_executed (calls s) = [ReleaseInventory; CancelOrder].
Proof.
  eexists _, _. split; [vm_compute; reflexivity|]. repeat split.
Qed.


End WorkerFacts.

(* ===================================================================== *)
(** ** Further laws of the activities *)
(* ===================================================================== *)

Module ActivityLaws.
Import Activities Inventory Stock ActivityFacts.

Ltac run_act :=
  unfold mbind, M_bind, mret, M_ret, gets, modify, read, throw.

(** *** Reserving *)

Lemma reserve_item_outcome (a : OrderItem) (st : Stores) :
  (in_stock st a
   ∧ ∃ stock, inventory st !! itemId a = Some stock
       ∧ reserve_item a st
         = (inl None,
            set_inventory (insert (itemId a)
              (mkInventoryItem (i_name stock) (i_quantity stock - quantity a)
                 (Some (default 0 (i_reserved stock) + quantity a)))) st))
  ∨ (¬ in_stock st a
     ∧ reserve_item a st
       = (inl (Some (failed_result
                       ("Insufficient inventory for product " +:+ itemId a))),
          st)).
Proof.
  unfold in_stock, reserve_item. run_act.
  destruct (inventory st !! itemId a) as [stock|] eqn:E.
  - destruct (i_quantity stock <? quantity a) eqn:Q.
    + right. split; [|done]. intros (s0 & [= <-] & Hle).
      apply Z.ltb_lt in Q. lia.
    + left. apply Z.ltb_ge in Q. split; [by exists stock|by exists stock].
  - right. split; [|done]. by intros (s0 & [=] & _).
Qed.

(** What the loop returns early is a failure result. *)
Lemma reserve_loop_stop_is_failure (its : list OrderItem) (st st' : Stores)
    (res : ActivityResult) :
  reserve_loop its st = (inl (Some res), st') → success res = false.
Proof.
  revert st. induction its as [|a its IH]; intros st; [done|].
  cbn [reserve_loop]. unfold mbind at 1, M_bind at 1.
  destruct (reserve_item_outcome a st) as [(_ & stock & _ & ->)|(_ & ->)].
  - apply IH.
  - by intros [= <- <-].
Qed.

Lemma in_stock_other (st : Stores) (k : string) (x : InventoryItem)
    (it : OrderItem) :
  itemId it ≠ k →
  in_stock (set_inventory (insert k x) st) it ↔ in_stock st it.
Proof.
  intros Hne. unfold in_stock. cbn. by rewrite lookup_insert_ne.
Qed.

Lemma reserve_loop_passes_iff (its : list OrderItem) (st : Stores) :
  NoDup (itemId <$> its) →
  (∃ st', reserve_loop its st = (inl None, st')) ↔ Forall (in_stock st) its.
Proof.
  revert st. induction its as [|a its IH]; intros st Hnd.
  - split; [constructor|by exists st].
  - rewrite fmap_cons in Hnd. apply NoDup_cons in Hnd as [Hfresh Hnd].
    assert (∀ x, Forall (in_stock (set_inventory (insert (itemId a) x) st)) its
                 ↔ Forall (in_stock st) its) as Hother.
    { intros x. rewrite !Forall_forall. split; intros H it Hit.
      - apply (in_stock_other st (itemId a) x); [|by apply H].
        intros Heq. apply Hfresh. rewrite <- Heq.
        by apply list_elem_of_fmap_2.
      - apply (in_stock_other st (itemId a) x); [|by apply H].
        intros Heq. apply Hfresh. rewrite <- Heq.
        by apply list_elem_of_fmap_2. }
    cbn [reserve_loop]. unfold mbind at 1, M_bind at 1.
    destruct (reserve_item_outcome a st) as [(Hin & stock & _ & ->)|(Hout & ->)].
    + rewrite (IH _ Hnd), Hother. split.
      * intros H. by constructor.
      * intros H. by inversion H.
    + split.
      * by intros (st' & [=]).
      * intros H. inversion H; subst. contradiction.
Qed.

(** X1. When the requested products are pairwise distinct,
    [reserveInventoryActivity] returns its success result exactly when every
    item's product exists in the inventory with at least the requested
    quantity. *)
Theorem reserve_succeeds_iff_all_in_stock
    (oid : string) (its : list OrderItem) (st : Stores) :
  NoDup (itemId <$> its) →
  (∃ st', reserveInventoryActivity oid its st
          = (inl (ok_result (Some "Inventory reserved successfully")), st'))
  ↔ Forall (in_stock st) its.
Proof.
  intros Hnd. rewrite <- (reserve_loop_passes_iff its st Hnd).
  unfold reserveInventoryActivity, mbind, M_bind.
  destruct (reserve_loop its st) as [[[res|]|e] st1] eqn:E; cbn.
  - apply reserve_loop_stop_is_failure in E.
    split; intros (st' & H); [|done].
    injection H as H _. by rewrite H in E.
  - split; intros _; by exists st1.
  - split; by intros (st' & [=]).
Qed.

Lemma reserve_succeeds_iff_all_in_stock_witness :
  (∃ st', reserveInventoryActivity "o1" (items Sagas.order_o1) initial_stores
          = (inl (ok_result (Some "Inventory reserved successfully")), st'))
  ↔ Forall (in_stock initial_stores) (items Sagas.order_o1).
Proof.
  apply (reserve_succeeds_iff_all_in_stock "o1" (items Sagas.order_o1)
           initial_stores).
  apply (bool_decide_unpack _). reflexivity.
Defined.

(** The effect of a reservation that returned success. *)
Lemma reserve_success_effect
    (oid : string) (its : list OrderItem) (st st' : Stores)
    (res : ActivityResult) :
  reserveInventoryActivity oid its st = (inl res, st') →
  success res = true →
  res = ok_result (Some "Inventory reserved successfully")
  ∧ (∀ k, inventory st' !! k = after_reserving k its <$> inventory st !! k)
  ∧ orders st' = orders st ∧ payments st' = payments st.
Proof.
  unfold reserveInventoryActivity, mbind, M_bind.
  destruct (reserve_loop its st) as [[[res0|]|e] st1] eqn:E; cbn;
    intros [= <- <-] Hres.
  - apply reserve_loop_stop_is_failure in E. congruence.
  - split; [done|]. by apply reserve_loop_retained.
Qed.

(** X2. For integer quantities in the range where the code's arithmetic is
    exact, a successful [reserveInventoryActivity] lowers the quantity of
    every product by the total the items request of it and raises its
    reservation counter by the same total, leaves products that no item
    names as they were, and touches neither the orders nor the payments. *)
Theorem reserve_success_deducts_requested
    (oid : string) (its : list OrderItem) (st st' : Stores)
    (res : ActivityResult) :
  exact_reserve st its →
  reserveInventoryActivity oid its st = (inl res, st') →
  success res = true →
  res = ok_result (Some "Inventory reserved successfully")
  ∧ (∀ k, inventory st' !! k = after_reserving k its <$> inventory st !! k)
  ∧ orders st' = orders st ∧ payments st' = payments st.
Proof. intros _. apply reserve_success_effect. Qed.

(** Discharges [exact_reserve] and [exact_release] on closed stores. *)
Ltac exact_stock :=
  split;
  [ cbn;
    repeat (apply Forall_cons_2; [unfold exact, max_exact; cbn; lia|]);
    apply Forall_nil_2
  | unfold initial_stores, initial_inventory; cbn [inventory];
    repeat (apply map_Forall_insert_2;
            [unfold exact, max_exact, reserved_or_0; cbn;
             repeat case_decide; try discriminate; lia|]);
    apply map_Forall_empty ].

Lemma reserve_success_deducts_requested_witness :
  ∃ st',
    reserveInventoryActivity "o1" (items Sagas.order_o1) initial_stores
    = (inl (ok_result (Some "Inventory reserved successfully")), st')
    ∧ inventory st' !! "item-1" = Some (mkInventoryItem "Product 1" 8 (Some 2))
    ∧ inventory st' !! "item-3" = Some (mkInventoryItem "Product 3" 8 None).
Proof.
  eexists. split; [reflexivity|].
  assert (exact_reserve initial_stores (items Sagas.order_o1)) as Hex
    by exact_stock.
  destruct (reserve_success_deducts_requested "o1" (items Sagas.order_o1)
              initial_stores _ _ Hex eq_refl eq_refl) as (_ & Hinv & _).
  split; rewrite Hinv; reflexivity.
Defined.

Lemma reserve_item_keeps_nonneg (a : OrderItem) (st st' : Stores)
    (x : option ActivityResult + thrown) :
  stock_nonneg st → reserve_item a st = (x, st') → stock_nonneg st'.
Proof.
  intros Hst.
  destruct (reserve_item_outcome a st)
    as [((s0 & Hs0 & Hle) & stock & Hstock & ->)|(_ & ->)];
    intros [= <- <-]; [|done].
  unfold stock_nonneg. cbn. apply map_Forall_insert_2; [|done].
  cbn. rewrite Hs0 in Hstock. injection Hstock as <-. lia.
Qed.

Lemma reserve_loop_keeps_nonneg (its : list OrderItem) (st st' : Stores)
    (x : option ActivityResult + thrown) :
  stock_nonneg st → reserve_loop its st = (x, st') → stock_nonneg st'.
Proof.
  revert st. induction its as [|a its IH]; intros st Hst.
  - by intros [= <- <-].
  - cbn [reserve_loop]. unfold mbind at 1, M_bind at 1.
    destruct (reserve_item a st) as [[[res|]|e] st0] eqn:E;
      pose proof (reserve_item_keeps_nonneg _ _ _ _ Hst E) as Hst0.
    + by intros [= <- <-].
    + by apply IH.
    + by intros [= <- <-].
Qed.

(** X3. [reserveInventoryActivity] never oversells: if no product has a
    negative quantity before the call, none has one after it, whether the
    call succeeded or stopped at a shortage, and whatever the requested
    quantities are. *)
Theorem reserve_keeps_stock_nonneg
    (oid : string) (its : list OrderItem) (st st' : Stores)
    (x : ActivityResult + thrown) :
  stock_nonneg st →
  reserveInventoryActivity oid its st = (x, st') →
  stock_nonneg st'.
Proof.
  intros Hst. unfold reserveInventoryActivity, mbind, M_bind.
  destruct (reserve_loop its st) as [[[res|]|e] st1] eqn:E;
    pose proof (reserve_loop_keeps_nonneg _ _ _ _ Hst E);
    by intros [= <- <-].
Qed.

Lemma reserve_keeps_stock_nonneg_witness :
  stock_nonneg initial_stores
  ∧ stock_nonneg
      (reserveInventoryActivity "o3" (items Sagas.order_o3) initial_stores).2
  ∧ stock_nonneg
      (reserveInventoryActivity "o1" (items Sagas.order_o1) initial_stores).2.
Proof.
  assert (stock_nonneg initial_stores) as H0.
  { unfold stock_nonneg, initial_stores, initial_inventory. cbn.
    repeat (apply map_Forall_insert_2; [cbn; lia|]). apply map_Forall_empty. }
  split; [exact H0|]. split.
  - exact (reserve_keeps_stock_nonneg "o3" (items Sagas.order_o3)
             initial_stores _ _ H0 (surjective_pairing _)).
  - exact (reserve_keeps_stock_nonneg "o1" (items Sagas.order_o1)
             initial_stores _ _ H0 (surjective_pairing _)).
Defined.

(** *** Releasing *)

Lemma release_item_outcome (a : OrderItem) (st : Stores) :
  release_item a st
  = (inl tt,
     match inventory st !! itemId a with
     | Some stock =>
         set_inventory (insert (itemId a)
           (mkInventoryItem (i_name stock) (i_quantity stock + quantity a)
              (Some (Z.max 0 (default 0 (i_reserved stock) - quantity a))))) st
     | None => st
     end).
Proof.
  unfold release_item. run_act. by destruct (inventory st !! itemId a).
Qed.

Lemma release_loop_cons (a : OrderItem) (its : list OrderItem) (st : Stores) :
  release_loop (a :: its) st
  = release_loop its
      match inventory st !! itemId a with
      | Some stock =>
          set_inventory (insert (itemId a)
            (mkInventoryItem (i_name stock) (i_quantity stock + quantity a)
               (Some (Z.max 0 (default 0 (i_reserved stock) - quantity a))))) st
      | None => st
      end.
Proof.
  cbn [release_loop]. unfold mbind, M_bind. by rewrite release_item_outcome.
Qed.

(** Quantities and names after a release. *)
Lemma release_loop_adds_requested (its : list OrderItem) (st st' : Stores) :
  release_loop its st = (inl tt, st') →
  (∀ k, i_quantity <$> inventory st' !! k
        = (λ s, i_quantity s + requested k its) <$> inventory st !! k)
  ∧ (∀ k, i_name <$> inventory st' !! k = i_name <$> inventory st !! k)
  ∧ orders st' = orders st ∧ payments st' = payments st.
Proof.
  revert st. induction its as [|a its IH]; intros st.
  - intros [= <-]. repeat split; try done. intros k.
    destruct (inventory st !! k); [|done]. cbn. f_equal. lia.
  - rewrite release_loop_cons. intros H.
    apply IH in H as (Hq & Hn & Ho & Hp).
    destruct (inventory st !! itemId a) as [stock|] eqn:E.
    + repeat split; try done; intros k.
      * rewrite Hq. cbn [inventory set_inventory requested foldr].
        destruct (decide (itemId a = k)) as [<-|Hne].
        -- rewrite lookup_insert_eq, E. cbn. f_equal.
           fold (requested (itemId a) its). lia.
        -- by rewrite lookup_insert_ne.
      * rewrite Hn. cbn [inventory set_inventory].
        destruct (decide (itemId a = k)) as [<-|Hne].
        -- by rewrite lookup_insert_eq, E.
        -- by rewrite lookup_insert_ne.
    + repeat split; try done; intros k.
      rewrite Hq. cbn [requested foldr].
      destruct (decide (itemId a = k)) as [<-|Hne]; [|done].
      by rewrite E.
Qed.

(** A reservation counter that is set and not negative stays so. *)
Lemma release_loop_keeps_floor (its : list OrderItem) (st st' : Stores)
    (k : string) (s : InventoryItem) (r : Z) :
  release_loop its st = (inl tt, st') →
  inventory st !! k = Some s → i_reserved s = Some r → 0 ≤ r →
  ∃ s' r', inventory st' !! k = Some s' ∧ i_reserved s' = Some r' ∧ 0 ≤ r'.
Proof.
  revert st s r. induction its as [|a its IH]; intros st s r.
  - intros [= <-] Hs Hr Hle. by exists s, r.
  - rewrite release_loop_cons. intros H Hs Hr Hle.
    destruct (inventory st !! itemId a) as [stock|] eqn:E;
      [|by apply (IH _ _ _ H Hs Hr)].
    destruct (decide (itemId a = k)) as [<-|Hne].
    + eapply (IH _ _ _ H); cbn; [apply lookup_insert_eq|done|lia].
    + eapply (IH _ _ _ H); cbn; [by rewrite lookup_insert_ne|done|done].
Qed.

Lemma release_loop_floors_named (its : list OrderItem) (st st' : Stores)
    (k : string) (s' : InventoryItem) :
  release_loop its st = (inl tt, st') →
  k ∈ itemId <$> its →
  inventory st' !! k = Some s' →
  ∃ r', i_reserved s' = Some r' ∧ 0 ≤ r'.
Proof.
  revert st. induction its as [|a its IH]; intros st H Hk Hs'.
  - by apply elem_of_nil in Hk.
  - rewrite release_loop_cons in H.
    destruct (decide (itemId a = k)) as [<-|Hne].
    + destruct (inventory st !! itemId a) as [stock|] eqn:E.
      * assert (0 ≤ Z.max 0 (default 0 (i_reserved stock) - quantity a))
          as Hle by lia.
        destruct (release_loop_keeps_floor _ _ _ (itemId a) _ _ H
                    (lookup_insert_eq _ _ _) eq_refl Hle)
          as (s0 & r0 & Hs0 & Hr0 & Hle0).
        rewrite Hs0 in Hs'. injection Hs' as <-. by exists r0.
      * destruct (release_loop_adds_requested _ _ _ H) as (_ & Hn & _).
        specialize (Hn (itemId a)). rewrite Hs', E in Hn. discriminate Hn.
    + rewrite fmap_cons in Hk. apply elem_of_cons in Hk as [->|Hk]; [done|].
      by eapply IH.
Qed.

(** The effect of a release on the stores. *)
Lemma release_effect
    (oid : string) (its : list OrderItem) (st st' : Stores)
    (res : ActivityResult) :
  releaseInventoryActivity oid its st = (inl res, st') →
  (∀ k, i_quantity <$> inventory st' !! k
        = (λ s, i_quantity s + requested k its) <$> inventory st !! k)
  ∧ (∀ k, i_name <$> inventory st' !! k = i_name <$> inventory st !! k)
  ∧ (∀ k s', k ∈ itemId <$> its → inventory st' !! k = Some s' →
       ∃ r', i_reserved s' = Some r' ∧ 0 ≤ r')
  ∧ orders st' = orders st ∧ payments st' = payments st.
Proof.
  unfold releaseInventoryActivity, mbind, M_bind.
  destruct (release_loop its st) as [[[]|e] st1] eqn:E; intros [= <- <-].
  destruct (release_loop_adds_requested _ _ _ E) as (Hq & Hn & Ho & Hp).
  repeat split; try done.
  intros k s' Hk Hs'. by eapply release_loop_floors_named.
Qed.

(** X4. For integer quantities in the range where the code's arithmetic is
    exact, [releaseInventoryActivity] raises the quantity of every product
    of the inventory by the total the items name of it, keeps its name, and
    leaves the reservation counter of every product it names set and not
    negative (the [Math.max(0, ...)] floor); orders and payments are not
    touched. *)
Theorem release_adds_requested_and_floors
    (oid : string) (its : list OrderItem) (st st' : Stores)
    (res : ActivityResult) :
  exact_release st its →
  releaseInventoryActivity oid its st = (inl res, st') →
  (∀ k, i_quantity <$> inventory st' !! k
        = (λ s, i_quantity s + requested k its) <$> inventory st !! k)
  ∧ (∀ k, i_name <$> inventory st' !! k = i_name <$> inventory st !! k)
  ∧ (∀ k s', k ∈ itemId <$> its → inventory st' !! k = Some s' →
       ∃ r', i_reserved s' = Some r' ∧ 0 ≤ r')
  ∧ orders st' = orders st ∧ payments st' = payments st.
Proof. intros _. apply release_effect. Qed.

Lemma release_adds_requested_and_floors_witness :
  ∃ st',
    releaseInventoryActivity "o3" (items Sagas.order_o3) initial_stores
    = (inl (ok_result (Some "Inventory released")), st')
    ∧ i_quantity <$> inventory st' !! "item-1" = Some 21
    ∧ ∃ r', (inventory st' !! "item-1") ≫= i_reserved = Some r' ∧ 0 ≤ r'.
Proof.
  eexists. split; [reflexivity|].
  assert (exact_release initial_stores (items Sagas.order_o3)) as Hex
    by exact_stock.
  destruct (release_adds_requested_and_floors "o3" (items Sagas.order_o3)
              initial_stores _ _ Hex eq_refl) as (Hq & _ & Hfloor & _).
  split; [by rewrite Hq|].
  destruct (Hfloor "item-1" _ ltac:(apply list_elem_of_here) eq_refl)
    as (r' & Hr' & Hle).
  exists r'. split; [exact Hr'|exact Hle].
Defined.

(** X5. For integer quantities in the range where the code's arithmetic is
    exact, releasing what a successful reservation reserved gives every
    product its quantity and name back. *)
Theorem release_undoes_reservation_quantities
    (oid : string) (its : list OrderItem) (st st1 st2 : Stores)
    (res res' : ActivityResult) :
  exact_reserve st its →
  reserveInventoryActivity oid its st = (inl res, st1) →
  success res = true →
  releaseInventoryActivity oid its st1 = (inl res', st2) →
  ∀ k, i_quantity <$> inventory st2 !! k = i_quantity <$> inventory st !! k
       ∧ i_name <$> inventory st2 !! k = i_name <$> inventory st !! k.
Proof.
  intros _ Hres Hok Hrel k.
  destruct (reserve_success_effect _ _ _ _ _ Hres Hok)
    as (_ & Hinv & _).
  destruct (release_effect _ _ _ _ _ Hrel)
    as (Hq & Hn & _).
  rewrite Hq, Hn, Hinv.
  destruct (inventory st !! k) as [s|]; [|done]. cbn. split; [|done].
  f_equal. lia.
Qed.

Lemma release_undoes_reservation_quantities_witness :
  ∃ st1 st2,
    reserveInventoryActivity "o1" (items Sagas.order_o1) initial_stores
    = (inl (ok_result (Some "Inventory reserved successfully")), st1)
    ∧ releaseInventoryActivity "o1" (items Sagas.order_o1) st1
      = (inl (ok_result (Some "Inventory released")), st2)
    ∧ i_quantity <$> inventory st1 !! "item-1" = Some 8
    ∧ i_quantity <$> inventory st2 !! "item-1" = Some 10.
Proof.
  eexists _, _. split; [reflexivity|]. split; [reflexivity|].
  split; [reflexivity|].
  assert (exact_reserve initial_stores (items Sagas.order_o1)) as Hex
    by exact_stock.
  by destruct (release_undoes_reservation_quantities "o1"
                 (items Sagas.order_o1) initial_stores _ _ _ _
                 Hex eq_refl eq_refl eq_refl "item-1") as [-> _].
Defined.

Lemma requested_nonneg (k : string) (its : list OrderItem) :
  Forall (λ it, 0 ≤ quantity it) its → 0 ≤ requested k its.
Proof.
  induction 1 as [|a its Ha _ IH]; cbn; [done|].
  fold (requested k its). destruct (decide (itemId a = k)); lia.
Qed.

Lemma release_loop_other (its : list OrderItem) (st st' : Stores) (k : string) :
  release_loop its st = (inl tt, st') →
  k ∉ itemId <$> its →
  inventory st' !! k = inventory st !! k.
Proof.
  revert st. induction its as [|a its IH]; intros st.
  - by intros [= <-].
  - rewrite release_loop_cons, fmap_cons, not_elem_of_cons.
    intros H [Hne Hk]. rewrite (IH _ H Hk).
    destruct (inventory st !! itemId a); [|done].
    cbn. by rewrite lookup_insert_ne.
Qed.

(** Releasing what was added to a counter brings the counter back, as long
    as the floor at zero is never reached. *)
Lemma release_loop_returns_counter (its : list OrderItem) (st st' : Stores)
    (k : string) (s : InventoryItem) (r0 : Z) :
  release_loop its st = (inl tt, st') →
  Forall (λ it, 0 ≤ quantity it) its → 0 ≤ r0 →
  inventory st !! k = Some s →
  i_reserved s = Some (r0 + requested k its) →
  ∃ s', inventory st' !! k = Some s' ∧ i_reserved s' = Some r0.
Proof.
  revert st s. induction its as [|a its IH]; intros st s.
  - intros [= <-] _ _ Hs Hr. exists s. split; [done|].
    rewrite Hr. cbn. f_equal. lia.
  - rewrite release_loop_cons. intros H Hq Hr0 Hs Hr.
    inversion Hq as [|? ? Ha Hits]; subst.
    pose proof (requested_nonneg k its Hits) as Hreq.
    cbn [requested foldr] in Hr. fold (requested k its) in Hr.
    destruct (decide (itemId a = k)) as [<-|Hne].
    + rewrite Hs in H.
      eapply (IH _ _ H Hits Hr0); [cbn; apply lookup_insert_eq|].
      cbn. rewrite Hr. cbn. f_equal. lia.
    + destruct (inventory st !! itemId a) as [stock|];
        [|by apply (IH _ _ H Hits Hr0 Hs)].
      eapply (IH _ _ H Hits Hr0); [cbn; by rewrite lookup_insert_ne|done].
Qed.

(** X6. For integer quantities in the range where the code's arithmetic is
    exact (so no item asks for a negative quantity and no counter is
    negative), releasing what a successful reservation reserved also brings
    the reservation counter ([stock.reserved || 0]) of every product back
    to what it was. *)
Theorem release_undoes_reservation_counters
    (oid : string) (its : list OrderItem) (st st1 st2 : Stores)
    (res res' : ActivityResult) (k : string) (s : InventoryItem) :
  exact_reserve st its →
  reserveInventoryActivity oid its st = (inl res, st1) →
  success res = true →
  releaseInventoryActivity oid its st1 = (inl res', st2) →
  inventory st !! k = Some s →
  ∃ s2, inventory st2 !! k = Some s2 ∧ reserved_or_0 s2 = reserved_or_0 s.
Proof.
  intros [Hex Hstock] Hres Hok Hrel Hs.
  assert (Forall (λ it, 0 ≤ quantity it) its) as Hq
    by (eapply Forall_impl; [exact Hex|by intros ? [? _]]).
  destruct (Hstock k s Hs) as (_ & Hr & _).
  destruct (reserve_success_effect _ _ _ _ _ Hres Hok)
    as (_ & Hinv & _).
  specialize (Hinv k). rewrite Hs in Hinv. cbn in Hinv.
  revert Hrel. unfold releaseInventoryActivity, mbind, M_bind.
  destruct (release_loop its st1) as [[[]|e] st1'] eqn:E; intros [= <- <-].
  unfold after_reserving in Hinv.
  case_bool_decide as Hk.
  - destruct (release_loop_returns_counter its st1 _ k _ (reserved_or_0 s)
                E Hq Hr Hinv eq_refl) as (s2 & Hs2 & Hr2).
    exists s2. split; [done|]. unfold reserved_or_0 at 1. by rewrite Hr2.
  - rewrite (release_loop_other _ _ _ _ E Hk), Hinv. by eexists.
Qed.

Lemma release_undoes_reservation_counters_witness :
  ∃ st1 st2 s2,
    reserveInventoryActivity "o1" (items Sagas.order_o1) initial_stores
    = (inl (ok_result (Some "Inventory reserved successfully")), st1)
    ∧ releaseInventoryActivity "o1" (items Sagas.order_o1) st1
      = (inl (ok_result (Some "Inventory released")), st2)
    ∧ (inventory st1 !! "item-1") ≫= i_reserved = Some 2
    ∧ inventory st2 !! "item-1" = Some s2
    ∧ reserved_or_0 s2 = 0.
Proof.
  assert (exact_reserve initial_stores (items Sagas.order_o1)) as Hex
    by exact_stock.
  destruct (release_undoes_reservation_counters "o1" (items Sagas.order_o1)
              initial_stores _ _ _ _ "item-1"
              (mkInventoryItem "Product 1" 10 None)
              Hex eq_refl eq_refl eq_refl eq_refl) as (s2 & Hs2 & Hr2).
  eexists _, _, s2. split; [reflexivity|]. split; [reflexivity|].
  split; [reflexivity|]. split; [exact Hs2|exact Hr2].
Defined.

(** A successful reservation within the exact range leaves stores whose
    release of the same items is within the exact range too: the round trips
    above assume nothing more of the release than of the reservation. *)
Lemma reservation_keeps_release_exact
    (oid : string) (its : list OrderItem) (st st1 : Stores)
    (res : ActivityResult) :
  exact_reserve st its →
  reserveInventoryActivity oid its st = (inl res, st1) →
  success res = true →
  exact_release st1 its.
Proof.
  intros [Hex Hstock] Hres Hok.
  assert (stock_nonneg st) as Hnn.
  { intros k s Hk. by destruct (Hstock k s Hk) as [[? _] _]. }
  assert (stock_nonneg st1) as Hnn1.
  { revert Hres. unfold reserveInventoryActivity, mbind, M_bind.
    destruct (reserve_loop its st) as [[[res0|]|e] st'] eqn:E;
      pose proof (reserve_loop_keeps_nonneg _ _ _ _ Hnn E);
      by intros [= <- <-]. }
  destruct (reserve_success_effect _ _ _ _ _ Hres Hok) as (_ & Hinv & _).
  assert (Forall (λ it, 0 ≤ quantity it) its) as Hq
    by (eapply Forall_impl; [exact Hex|by intros ? [? _]]).
  split; [done|]. intros k s1 Hk1.
  pose proof (Hnn1 k s1 Hk1) as Hq1. cbn in Hq1.
  rewrite Hinv in Hk1.
  destruct (inventory st !! k) as [s|] eqn:Hk; [|done].
  cbn in Hk1. injection Hk1 as <-.
  destruct (Hstock k s Hk) as ([Hq0 Hqmax] & Hr & [_ Hrmax]).
  pose proof (requested_nonneg k its Hq) as Hreq.
  unfold after_reserving, exact, reserved_or_0 in *. cbn in *.
  case_bool_decide; cbn; lia.
Qed.

(** *** Paying and refunding *)

Lemma Qltb_false (x y : Q) : Qltb x y = false → (y <= x)%Q.
Proof.
  unfold Qltb. intros H. apply negb_false_iff in H. by apply Qle_bool_iff.
Qed.

(** The outcomes of one payment attempt and what each leaves in the stores. *)
Lemma payment_outcome
    (amb : Ambient) (oid uid : string) (amt : Q) (st st' : Stores)
    (x : ActivityResult + thrown) :
  processPaymentActivity amb oid uid amt st = (x, st') →
  match x with
  | inr e =>
      same_stores st st' ∧ (amt <= 1000)%Q
      ∧ (e = JsError "Payment API timeout - network connection failed"
         ∨ e = JsError "Payment API server error 500 - Internal server error")
  | inl res =>
      if success res then
        ∃ rest processedAt,
          paymentId res = Some ("payment-" +:+ rest)
          ∧ truthy (paymentId res) = true
          ∧ amount res = Some amt
          ∧ (amt <= 1000)%Q
          ∧ payments st'
            = <["payment-" +:+ rest :=
                  mkPayment ("payment-" +:+ rest) oid uid amt completed
                            processedAt None]> (payments st)
          ∧ orders st' = orders st ∧ inventory st' = inventory st
      else
        same_stores st st' ∧ paymentId res = None
        ∧ ∃ msg, message res = Some ("Payment failed: " +:+ msg)
  end.
Proof.
  unfold processPaymentActivity, same_stores. run_act. cbn.
  destruct (Qltb 1000 amt) eqn:Hlimit.
  { intros [= <- <-]. cbn. repeat split. by eexists. }
  apply Qltb_false in Hlimit.
  destruct (Qltb _ 15).
  { intros [= <- <-]. cbn. repeat split; auto. }
  destruct (Qle_bool 15 _ && Qltb _ 25).
  { intros [= <- <-]. cbn. repeat split; auto. }
  destruct (Qle_bool 25 _ && Qltb _ 30).
  { intros [= <- <-]. cbn. repeat split. by eexists. }
  destruct (Qle_bool 30 _ && Qltb _ 33).
  { intros [= <- <-]. cbn. repeat split. by eexists. }
  intros [= <- <-]. cbn. eexists _, _. repeat split; done.
Qed.

(** X7. [processPaymentActivity] records a payment only when it returns
    success.  A call that throws or returns a failure result leaves orders,
    inventory and payments as they were, and what it throws is one of the
    two simulated transient errors, never for an amount above the limit.  A
    call that returns success had an amount of at most 1000, returns a
    non-empty payment identifier starting with [payment-] together with the
    amount, and has stored under that identifier a payment of that order,
    user and amount with status [completed]; nothing else changes. *)
Theorem payment_recorded_only_on_success
    (amb : Ambient) (oid uid : string) (amt : Q) (st st' : Stores)
    (x : ActivityResult + thrown) :
  processPaymentActivity amb oid uid amt st = (x, st') →
  match x with
  | inr e =>
      same_stores st st' ∧ (amt <= 1000)%Q
      ∧ (e = JsError "Payment API timeout - network connection failed"
         ∨ e = JsError "Payment API server error 500 - Internal server error")
  | inl res =>
      if success res then
        ∃ rest processedAt,
          paymentId res = Some ("payment-" +:+ rest)
          ∧ truthy (paymentId res) = true
          ∧ amount res = Some amt
          ∧ (amt <= 1000)%Q
          ∧ payments st'
            = <["payment-" +:+ rest :=
                  mkPayment ("payment-" +:+ rest) oid uid amt completed
                            processedAt None]> (payments st)
          ∧ orders st' = orders st ∧ inventory st' = inventory st
      else
        same_stores st st' ∧ paymentId res = None
        ∧ ∃ msg, message res = Some ("Payment failed: " +:+ msg)
  end.
Proof. apply payment_outcome. Qed.

Lemma payment_recorded_only_on_success_witness :
  ∃ st' p,
    processPaymentActivity Worker.ambient0 "o1" "user-123" 400 initial_stores
    = (inl (mkActivityResult true None (Some "payment-0-x") (Some 400%Q)
              None), st')
    ∧ payments st' !! "payment-0-x" = Some p
    ∧ p_status p = completed ∧ p_orderId p = "o1" ∧ p_amount p = 400%Q.
Proof.
  pose proof (payment_recorded_only_on_success Worker.ambient0 "o1" "user-123"
                400 initial_stores _ _ (surjective_pairing _)) as H.
  destruct (processPaymentActivity Worker.ambient0 "o1" "user-123" 400
              initial_stores) as [x st'] eqn:E.
  vm_compute in E. injection E as <- <-. cbn in H.
  destruct H as (rest & processedAt & Hid & _ & _ & _ & Hpay & _).
  injection Hid as Hrest. change ("0-x" = rest) in Hrest. subst rest.
  eexists _, _. split; [reflexivity|].
  unfold payments at 1. rewrite Hpay.
  split; [apply lookup_insert_eq|]. by repeat split.
Defined.

(** X8. Refunding the identifier a successful payment returned marks that
    payment [refunded] and stamps it, keeping its order, user and amount,
    whatever order id the refund is called with; every other payment, the
    orders and the inventory are as before the payment. *)
Theorem refund_after_payment
    (amb : Ambient) (oid uid oid' pid : string) (amt : Q) (st st1 : Stores)
    (res : ActivityResult) :
  processPaymentActivity amb oid uid amt st = (inl res, st1) →
  paymentId res = Some pid →
  ∃ st2 processedAt refundedAt,
    refundPaymentActivity amb oid' pid st1
    = (inl (ok_result (Some "Payment refunded")), st2)
    ∧ payments st2 !! pid
      = Some (mkPayment pid oid uid amt refunded processedAt (Some refundedAt))
    ∧ (∀ k, k ≠ pid → payments st2 !! k = payments st !! k)
    ∧ orders st2 = orders st ∧ inventory st2 = inventory st.
Proof.
  intros Hpay Hpid.
  pose proof (payment_outcome _ _ _ _ _ _ _ Hpay) as H.
  cbn in H. destruct (success res).
  - destruct H as (rest & processedAt & Hid & _ & _ & _ & Hp & Ho & Hi).
    assert (pid = "payment-" +:+ rest) as -> by congruence.
    unfold refundPaymentActivity. run_act. rewrite Hp, lookup_insert_eq. cbn.
    eexists _, processedAt, _. split; [reflexivity|]. cbn.
    rewrite Hp. split; [apply lookup_insert_eq|]. split; [|done].
    intros k Hk. by rewrite !lookup_insert_ne.
  - destruct H as (_ & Hnone & _). congruence.
Qed.

Lemma refund_after_payment_witness :
  ∃ st1 st2 p,
    processPaymentActivity Worker.ambient0 "o1" "user-123" 400 initial_stores
    = (inl (mkActivityResult true None (Some "payment-0-x") (Some 400%Q)
              None), st1)
    ∧ refundPaymentActivity Worker.ambient0 "another-order" "payment-0-x" st1
      = (inl (ok_result (Some "Payment refunded")), st2)
    ∧ payments st2 !! "payment-0-x" = Some p
    ∧ p_status p = refunded ∧ p_orderId p = "o1".
Proof.
  destruct (processPaymentActivity Worker.ambient0 "o1" "user-123" 400
              initial_stores) as [x st1] eqn:E.
  assert (x = inl (mkActivityResult true None (Some "payment-0-x")
                     (Some 400%Q) None)) as ->.
  { vm_compute in E. by injection E as <- _. }
  destruct (refund_after_payment Worker.ambient0 "o1" "user-123"
              "another-order" "payment-0-x" 400 initial_stores st1 _
              E eq_refl) as (st2 & t1 & t2 & Href & Hp & _).
  eexists st1, st2, _. split; [reflexivity|]. split; [exact Href|].
  split; [exact Hp|]. by split.
Defined.

(** *** Creating and cancelling *)

(** X9. [createOrderActivity] stores the order under its id with status
    [created], replacing whatever order had that id (a cancelled one is
    created again), and returns it; [cancelOrderActivity] on that id then
    turns the status to [cancelled] and stamps it, keeping user, items and
    total.  No other order, and neither inventory nor payments, changes. *)
Theorem cancel_after_create (amb : Ambient) (d : OrderData) (st : Stores) :
  ∃ createdAt cancelledAt st1 st2,
    createOrderActivity amb d st
    = (inl (mkActivityResult true None None None
              (Some (mkOrder (orderId d) (userId d) (items d) (totalAmount d)
                       created createdAt None))), st1)
    ∧ orders st1
      = <[orderId d := mkOrder (orderId d) (userId d) (items d) (totalAmount d)
                         created createdAt None]> (orders st)
    ∧ cancelOrderActivity amb (orderId d) st1
      = (inl (ok_result (Some "Order cancelled")), st2)
    ∧ orders st2
      = <[orderId d := mkOrder (orderId d) (userId d) (items d) (totalAmount d)
                         cancelled createdAt (Some cancelledAt)]> (orders st)
    ∧ inventory st2 = inventory st ∧ payments st2 = payments st.
Proof.
  eexists _, _, _, _.
  split; [unfold createOrderActivity; run_act; reflexivity|].
  split; [reflexivity|].
  unfold cancelOrderActivity. run_act. cbn. rewrite lookup_insert_eq. cbn.
  split; [reflexivity|]. cbn. by rewrite insert_insert_eq.
Qed.

End ActivityLaws.

(* ===================================================================== *)
(** ** Further laws of the workflow *)
(* ===================================================================== *)

Module SagaLaws.
Import Activities Workflow Sagas Worker WorkflowFacts.

(** Every way for [H : c ∈ l] to hold in a log [l] written out. *)
Ltac members H :=
  repeat (apply elem_of_cons in H as [H|H]; [try discriminate H|]);
  try (by apply elem_of_nil in H).

Lemma or_else_falsy (m : option string) (d : string) :
  truthy m = false → or_else m d = d.
Proof.
  destruct m as [s|]; cbn; [|done]. by destruct (String.eqb s "").
Qed.

Section Runs.
Context {W : Type}.
Variable gw : Gateway W.

(** X10. In every run each of the eight activities is called at most once.
    The ledger is an initial part of: cancel the order, release its items,
    refund the payment; each entry carries the order id, the release entry
    the items of the request.  A successful run executes no compensation, a
    compensated run executes the compensation of each ledger entry, last
    entry first. *)
Theorem each_activity_called_at_most_once
    (od : OrderData) (w : W) (r : WorkflowResult) (s : State W) :
  run gw od w = (inl r, s) →
  NoDup (capability <$> calls s)
  ∧ (∃ pid, compensationSteps s
            `prefix_of` [cancel_entry od; release_entry od; refund_entry od pid])
  ∧ compensations_executed (calls s)
    = if w_success r then []
      else (λ st, capability_of_type (type st)) <$> reverse (compensationSteps s).
Proof.
  intros Hr.
  by_path gw od w Hrun; rewrite Hrun in Hr; injection Hr as <- <-; cbn;
    (split; [apply (bool_decide_unpack _); reflexivity|]);
    (split; [|reflexivity]);
    try match goal with
        | |- context [refund_if_paid _ ?r3] =>
            unfold refund_if_paid; destruct (truthy (paymentId r3))
        end;
    first [ exists None; by eexists | eexists _; by eexists ].
Qed.

(** X11. [refundPayment] is called exactly in the runs where
    [processPayment] returned success with a non-empty payment identifier
    and [sendConfirmationEmail] then threw. *)
Theorem refund_only_after_confirmation_email_fault
    (od : OrderData) (w : W) (r : WorkflowResult) (s : State W) :
  run gw od w = (inl r, s) →
  RefundPayment ∈ compensations_executed (calls s)
  ↔ ∃ r3 e, mkCall ProcessPayment (Returned r3) ∈ calls s
      ∧ success r3 = true ∧ truthy (paymentId r3) = true
      ∧ mkCall SendConfirmationEmail (Raised e) ∈ calls s.
Proof.
  intros Hr.
  by_path gw od w Hrun; rewrite Hrun in Hr; injection Hr as <- <-; cbn;
    (split;
     [ intros H; members H
     | intros (r3' & e' & Hpay & Hok & Hid & Hmail); members Hmail ]).
  - eexists _, _. split; [apply list_elem_of_further, list_elem_of_further,
                            list_elem_of_here|].
    repeat split; try done.
    do 3 apply list_elem_of_further. apply list_elem_of_here.
  - apply list_elem_of_here.
  - members Hpay. injection Hpay as ->. congruence.
Qed.

(** X12. The error text of a compensated outcome.  A forward call that
    threw something that is not an [Error] is reported as
    ['Unknown error'].  A failure result of [reserveInventory] is reported
    as ['Insufficient inventory'] whatever message the activity returned.  A
    failure result of [processPayment] is reported as ['Payment failed: ']
    followed by its message, or by ['Unknown error'] when the message is
    absent or empty. *)
Theorem error_text_of_compensated_outcome
    (od : OrderData) (w : W) (r : WorkflowResult) (s : State W) :
  run gw od w = (inl r, s) →
  (∀ k, mkCall k (Raised JsOther) ∈ calls s → is_forward k = true →
        w_error r = Some "Unknown error")
  ∧ (∀ r2, mkCall ReserveInventory (Returned r2) ∈ calls s →
           success r2 = false → w_error r = Some "Insufficient inventory")
  ∧ (∀ r3, mkCall ProcessPayment (Returned r3) ∈ calls s →
           success r3 = false →
           w_error r
           = Some ("Payment failed: " +:+ or_else (message r3) "Unknown error")
           ∧ (truthy (message r3) = false →
              w_error r = Some "Payment failed: Unknown error")).
Proof.
  intros Hr.
  by_path gw od w Hrun; rewrite Hrun in Hr; injection Hr as <- <-; cbn;
    (split; [intros k H Hfw; members H; simplify_eq/=; done|]);
    (split; [intros r2' H Hfail; members H; simplify_eq/=; congruence|]);
    intros r3' H Hfail; members H; simplify_eq/=; try congruence;
    (split; [done|]); intros Hm; by rewrite (or_else_falsy _ _ Hm).
Qed.

End Runs.

Lemma error_text_of_compensated_outcome_witness :
  ∃ r s,
    run gw_unwind_broken order_o1 tt = (inl r, s)
    ∧ w_error r = Some "Payment failed: Card declined".
Proof.
  eexists _, _. split; [reflexivity|].
  destruct (error_text_of_compensated_outcome gw_unwind_broken order_o1 tt
              _ _ eq_refl) as (_ & _ & Hpay).
  destruct (Hpay (failed_result "Card declined")) as [-> _];
    [cbn; do 2 apply list_elem_of_further; apply list_elem_of_here
    |reflexivity|reflexivity].
Defined.

Lemma each_activity_called_at_most_once_witness :
  ∃ r s,
    run (activities ambient0) order_o1 initial_stores = (inl r, s)
    ∧ NoDup (capability <$> calls s)
    ∧ compensations_executed (calls s) = [].
Proof.
  destruct (run (activities ambient0) order_o1 initial_stores)
    as [[r|e] s] eqn:E; [|vm_compute in E; discriminate E].
  destruct (each_activity_called_at_most_once (activities ambient0) order_o1
              initial_stores r s E) as (Hnd & _ & Hex).
  exists r, s. split; [reflexivity|]. split; [exact Hnd|].
  rewrite Hex. vm_compute in E. by injection E as <- _.
Defined.

Lemma refund_only_after_confirmation_email_fault_witness :
  ∃ r s,
    run gw_unpaid_email_down order_o1 tt = (inl r, s)
    ∧ RefundPayment ∉ compensations_executed (calls s).
Proof.
  eexists _, _. split; [reflexivity|].
  rewrite (refund_only_after_confirmation_email_fault gw_unpaid_email_down
             order_o1 tt _ _ eq_refl).
  intros (r3 & e & Hpay & _ & Hid & _). cbn in Hpay. members Hpay.
  by simplify_eq/=.
Defined.

(** The reservation of [order_o3] fails for lack of stock and is released
    all the same. *)
Lemma reserve_failure_is_released_witness :
  ∃ r s,
    run (activities ambient0) order_o3 initial_stores = (inl r, s)
    ∧ compensations_executed (calls s) = [ReleaseInventory; CancelOrder]
    ∧ w_error r = Some "Insufficient inventory".
Proof.
  destruct (run (activities ambient0) order_o3 initial_stores)
    as [[r|e] s] eqn:E; [|vm_compute in E; discriminate E].
  destruct (reserve_failure_is_released (activities ambient0) order_o3
              initial_stores r s
              (failed_result "Insufficient inventory for product item-1") E)
    as (_ & Hex & Herr).
  - vm_compute in E. injection E as _ <-. cbn.
    apply list_elem_of_further, list_elem_of_here.
  - reflexivity.
  - exists r, s. by repeat split.
Defined.

End SagaLaws.

(* ===================================================================== *)
(** ** Further laws of the workflow over the registered activities *)
(* ===================================================================== *)

Module WorkerLaws.
Import Activities Inventory Stock Workflow Sagas Worker.
Import ActivityFacts WorkflowFacts WorkerFacts ActivityLaws SagaLaws.

Section Registered.
Variable amb : Ambient.

(** *** What each proxy does to the stores *)

Lemma worker_create (od : OrderData) (st : Stores) :
  createOrder (activities amb) od st
  = (inl (mkActivityResult true None None None
            (Some (mkOrder (orderId od) (userId od) (items od) (totalAmount od)
                     created (toISOString amb (reads st)) None))),
     mkStores
       (<[orderId od := mkOrder (orderId od) (userId od) (items od)
                          (totalAmount od) created
                          (toISOString amb (reads st)) None]> (orders st))
       (inventory st) (payments st) (S (reads st))).
Proof. by apply proxy_returned. Qed.

Lemma worker_reserve (oid : string) (its : list OrderItem) (st st' : Stores)
    (x : ActivityResult + thrown) :
  reserveInventory (activities amb) oid its st = (x, st') →
  ∃ res, x = inl res ∧ reserveInventoryActivity oid its st = (inl res, st').
Proof.
  destruct (reserveInventory_returns oid its st) as (res & st0 & Hact).
  cbn [reserveInventory activities].
  rewrite (proxy_returned _ _ _ _ Hact). intros [= <- <-]. by exists res.
Qed.

(** The payment proxy: a result comes from an attempt that ran on the same
    orders, inventory and payments as the first one; a rejection is
    [ActivityFailure] and leaves the three maps as they were. *)
Lemma worker_payment (oid uid : string) (amt : Q) (st st' : Stores)
    (x : ActivityResult + thrown) :
  processPayment (activities amb) oid uid amt st = (x, st') →
  match x with
  | inl res =>
      ∃ st0, same_stores st st0
        ∧ processPaymentActivity amb oid uid amt st0 = (inl res, st')
  | inr e => e = ActivityFailure ∧ same_stores st st'
  end.
Proof.
  cbn [processPayment activities].
  unfold proxy, maximumAttempts. cbn [Nat.sub retry]. unfold try_catch, throw.
  destruct (processPaymentActivity amb oid uid amt st) as [[r|e] s1] eqn:E1.
  { intros [= <- <-]. by exists st. }
  pose proof (payment_outcome _ _ _ _ _ _ _ E1) as (H1 & _).
  destruct (processPaymentActivity amb oid uid amt s1) as [[r|e2] s2] eqn:E2.
  { intros [= <- <-]. by exists s1. }
  pose proof (payment_outcome _ _ _ _ _ _ _ E2) as (H2 & _).
  destruct (processPaymentActivity amb oid uid amt s2) as [[r|e3] s3] eqn:E3.
  { intros [= <- <-]. exists s2. split; [|done].
    destruct H1 as (?&?&?), H2 as (?&?&?). repeat split; congruence. }
  pose proof (payment_outcome _ _ _ _ _ _ _ E3) as (H3 & _).
  intros [= <- <-]. split; [done|].
  destruct H1 as (?&?&?), H2 as (?&?&?), H3 as (?&?&?).
  repeat split; congruence.
Qed.

Lemma worker_confirmation_email (oid uid : string) (total : Q) (st : Stores) :
  sendConfirmationEmail (activities amb) oid uid total st
  = (inl (ok_result (Some "Email sent")), st).
Proof. by apply proxy_returned. Qed.

Lemma worker_release (od : OrderData) (st : Stores) :
  ∃ st', releaseInventory (activities amb) (data (release_entry od)) st
         = (inl (ok_result (Some "Inventory released")), st')
    ∧ releaseInventoryActivity (orderId od) (items od) st
      = (inl (ok_result (Some "Inventory released")), st').
Proof.
  destruct (releaseInventory_succeeds (orderId od) (items od) st)
    as (st' & Hact & _).
  exists st'. split; [|done].
  cbn [releaseInventory activities release_entry data d_items d_orderId].
  by apply proxy_returned.
Qed.

Lemma worker_cancel (od : OrderData) (st : Stores) (o : Order) :
  orders st !! orderId od = Some o →
  cancelOrder (activities amb) (data (cancel_entry od)) st
  = (inl (ok_result (Some "Order cancelled")),
     mkStores
       (<[orderId od := mkOrder (o_orderId o) (o_userId o) (o_items o)
                          (o_totalAmount o) cancelled (o_createdAt o)
                          (Some (toISOString amb (reads st)))]> (orders st))
       (inventory st) (payments st) (S (reads st))).
Proof.
  intros Ho. cbn [cancelOrder activities cancel_entry data d_orderId].
  apply proxy_returned.
  unfold cancelOrderActivity. run_act. by rewrite Ho.
Qed.

Lemma worker_cancellation_email (oid uid reason : string) (st : Stores) :
  sendCancellationEmail (activities amb) oid uid reason st
  = (inl (ok_result (Some "Cancellation email sent")), st).
Proof. by apply proxy_returned. Qed.

End Registered.

(** The [catch] block over a ledger of two entries whose compensations and
    cancellation email return. *)
Lemma unwind_release_then_cancel {W} (gw : Gateway W) (od : OrderData)
    (e : thrown) (log : list Call) (w3 w4 w5 w6 : W)
    (ra rb rc : ActivityResult) :
  releaseInventory gw (data (release_entry od)) w3 = (inl ra, w4) →
  cancelOrder gw (data (cancel_entry od)) w4 = (inl rb, w5) →
  sendCancellationEmail gw (orderId od) (userId od) (error_message e) w5
  = (inl rc, w6) →
  catch_block gw od e (mkState [cancel_entry od; release_entry od] log w3)
  = (inl (mkWorkflowResult false (orderId od) "Order cancelled and refunded"
            None (Some (error_message e))),
     mkState [cancel_entry od; release_entry od]
       (log ++ [mkCall ReleaseInventory (Returned ra);
                mkCall CancelOrder (Returned rb);
                mkCall SendCancellationEmail (Returned rc)]) w6).
Proof.
  intros Hrel Hcan Hmail.
  cbn in Hrel, Hcan.
  unfold catch_block. run_monad. unfold compensate. run_monad.
  rewrite Hrel. cbn. rewrite Hcan. cbn. rewrite Hmail. cbn.
  by rewrite <- !app_assoc.
Qed.

Lemma same_stores_trans (a b c : Stores) :
  same_stores a b → same_stores b c → same_stores a c.
Proof. intros (?&?&?) (?&?&?). repeat split; congruence. Qed.

Section Effects.
Variable amb : Ambient.

(** X13. The stores after a successful run over the registered activities,
    for integer quantities in the range where the code's arithmetic is
    exact: the order is stored under its id with status [created]; every
    product has lost exactly what the items request of it; one payment was
    added,
    under the identifier the outcome carries, for the order, user and total
    of the request, with status [completed]; the total was at most 1000;
    and the ledger held the three entries. *)
Theorem successful_run_effects
    (od : OrderData) (st : Stores) (r : WorkflowResult) (s : State Stores) :
  exact_reserve st (items od) →
  run (activities amb) od st = (inl r, s) →
  w_success r = true →
  ∃ pid createdAt processedAt,
    w_paymentId r = Some pid
    ∧ orders (world s)
      = <[orderId od := mkOrder (orderId od) (userId od) (items od)
                          (totalAmount od) created createdAt None]> (orders st)
    ∧ (∀ k, inventory (world s) !! k
            = after_reserving k (items od) <$> inventory st !! k)
    ∧ payments (world s)
      = <[pid := mkPayment pid (orderId od) (userId od) (totalAmount od)
                   completed processedAt None]> (payments st)
    ∧ (totalAmount od <= 1000)%Q
    ∧ type <$> compensationSteps s
      = [type_cancelOrder; type_releaseInventory; type_refundPayment].
Proof.
  intros _ Hr Hok.
  destruct (run_outcome (activities amb) od st) as (v & s1 & Hpath & Hrun).
  rewrite Hrun in Hr. clear Hrun.
  inversion Hpath; subst; clear Hpath;
    try (match type of Hr with
         | catch_block _ _ ?e0 ?s0 = _ =>
             destruct (catch_block_returns (activities amb) od e0 s0)
               as (cs & em & w' & Hc & _)
         end;
         rewrite Hc in Hr; injection Hr as <- <-; discriminate Hok).
  injection Hr as <- <-. cbn [w_paymentId world compensationSteps].
  repeat match goal with
         | H : createOrder _ _ _ = _ |- _ =>
             rewrite worker_create in H; injection H as <- <-
         | H : reserveInventory _ _ _ _ = _ |- _ =>
             apply worker_reserve in H as (? & [= <-] & Hreserve)
         | H : processPayment _ _ _ _ _ = _ |- _ =>
             apply worker_payment in H as (st0 & (So & Si & Sp) & Hpay)
         | H : sendConfirmationEmail _ _ _ _ _ = _ |- _ =>
             rewrite worker_confirmation_email in H; injection H as <- <-
         end.
  destruct (reserve_success_effect _ _ _ _ _ Hreserve)
    as (_ & Hinv & Ho & Hp); [done|].
  pose proof (payment_outcome _ _ _ _ _ _ _ Hpay) as Hrec.
  cbn in Hrec.
  match type of Hrec with
  | if success ?r3 then _ else _ =>
      match goal with Hs : success r3 = true |- _ => rewrite Hs in Hrec end
  end.
  destruct Hrec as (rest & processedAt & Hid & Htruthy & _ & Hle & Hpays
                    & Hords & Hinvs).
  exists ("payment-" +:+ rest), (toISOString amb (reads st)), processedAt.
  split; [done|]. split; [by rewrite Hords, <- So, Ho|].
  split; [intros k; by rewrite Hinvs, <- Si, Hinv|].
  split; [by rewrite Hpays, <- Sp, Hp|]. split; [done|].
  unfold refund_if_paid. by rewrite Htruthy.
Qed.

(** The unwind of a failed payment, from stores [w3] that hold the order and
    the inventory as the reservation left it. *)
Lemma unwind_after_reservation
    (od : OrderData) (st w2 w3 : Stores) (e : thrown) (log : list Call)
    (o : Order) :
  (∀ k, inventory w2 !! k = after_reserving k (items od) <$> inventory st !! k) →
  same_stores w2 w3 →
  orders w2 !! orderId od = Some o →
  ∃ w6 cancelledAt,
    catch_block (activities amb) od e
      (mkState [cancel_entry od; release_entry od] log w3)
    = (inl (mkWorkflowResult false (orderId od) "Order cancelled and refunded"
              None (Some (error_message e))),
       mkState [cancel_entry od; release_entry od]
         (log ++ [mkCall ReleaseInventory
                    (Returned (ok_result (Some "Inventory released")));
                  mkCall CancelOrder
                    (Returned (ok_result (Some "Order cancelled")));
                  mkCall SendCancellationEmail
                    (Returned (ok_result (Some "Cancellation email sent")))])
         w6)
    ∧ (∀ k, i_quantity <$> inventory w6 !! k = i_quantity <$> inventory st !! k)
    ∧ payments w6 = payments w2
    ∧ orders w6
      = <[orderId od := mkOrder (o_orderId o) (o_userId o) (o_items o)
                          (o_totalAmount o) cancelled (o_createdAt o)
                          (Some cancelledAt)]> (orders w2).
Proof.
  intros Hinv (So & Si & Sp) Ho.
  destruct (worker_release amb od w3) as (w4 & Hrel & Hact).
  destruct (release_effect _ _ _ _ _ Hact)
    as (Hq & _ & _ & Ho4 & Hp4).
  assert (orders w4 !! orderId od = Some o) as Ho4' by by rewrite Ho4, <- So.
  eexists _, _. split.
  - eapply unwind_release_then_cancel;
      [exact Hrel|by apply worker_cancel|apply worker_cancellation_email].
  - cbn. split; [|split; [congruence|by rewrite Ho4, <- So]].
    intros k. rewrite Hq, <- Si, Hinv.
    destruct (inventory st !! k) as [stock|]; [|done]. cbn. f_equal. lia.
Qed.

(** X14. For integer quantities in the range where the code's arithmetic is
    exact, a run over the registered activities that is compensated after
    [reserveInventory] returned success undoes what it did: every product
    has the quantity it had before the run, no payment was added, the order
    of the request is stored with status [cancelled], no other order
    changed, and the compensations executed are [releaseInventory] then
    [cancelOrder]. *)
Theorem compensated_run_restores_stock
    (od : OrderData) (st : Stores) (r : WorkflowResult) (s : State Stores)
    (r2 : ActivityResult) :
  exact_reserve st (items od) →
  run (activities amb) od st = (inl r, s) →
  w_success r = false →
  mkCall ReserveInventory (Returned r2) ∈ calls s →
  success r2 = true →
  (∀ k, i_quantity <$> inventory (world s) !! k
        = i_quantity <$> inventory st !! k)
  ∧ payments (world s) = payments st
  ∧ (∃ o, orders (world s) !! orderId od = Some o
       ∧ o_status o = cancelled ∧ o_userId o = userId od
       ∧ o_items o = items od ∧ o_totalAmount o = totalAmount od)
  ∧ (∀ k, k ≠ orderId od → orders (world s) !! k = orders st !! k)
  ∧ compensations_executed (calls s) = [ReleaseInventory; CancelOrder].
Proof.
  intros _ Hr Hfail Hin Hok.
  destruct (run_outcome (activities amb) od st) as (v & s1 & Hpath & Hrun).
  rewrite Hrun in Hr. clear Hrun.
  inversion Hpath; subst; clear Hpath;
    repeat match goal with
           | H : createOrder _ _ _ = _ |- _ =>
               rewrite worker_create in H; simplify_eq
           | H : reserveInventory _ _ _ _ = _ |- _ =>
               apply worker_reserve in H as (? & ? & Hreserve); simplify_eq
           | H : sendConfirmationEmail _ _ _ _ _ = _ |- _ =>
               rewrite worker_confirmation_email in H; simplify_eq
           end.
  - (* the reservation returned a failure result *)
    match type of Hr with
    | catch_block _ _ ?e0 ?s0 = _ =>
        destruct (catch_block_returns (activities amb) od e0 s0)
          as (cs & em & w' & Hc & Hcaps)
    end.
    rewrite Hc in Hr. injection Hr as <- <-. cbn in Hin, Hcaps.
    name_calls cs Hcaps. members Hin. simplify_eq/=. congruence.
  - (* the payment call was rejected *)
    match goal with
    | H : processPayment _ _ _ _ _ = _ |- _ =>
        apply worker_payment in H as (_ & Hs23)
    end.
    destruct (reserve_success_effect _ _ _ _ _ Hreserve)
      as (_ & Hinv & Ho & Hp); [done|].
    cbn in Ho, Hp.
    pose proof (f_equal (λ m, m !! orderId od) Ho) as Horder.
    cbn in Horder. rewrite lookup_insert_eq in Horder.
    match type of Hr with
    | catch_block _ _ ?e0 (mkState _ ?log _) = _ =>
        destruct (unwind_after_reservation od st _ _ e0 log _ Hinv Hs23 Horder)
          as (w6 & cancelledAt & Hc & Hq & Hp6 & Ho6)
    end.
    rewrite Hc in Hr. injection Hr as <- <-. cbn.
    split; [done|]. split; [congruence|].
    rewrite Ho6, Ho. cbn. split; [eexists; by rewrite lookup_insert_eq|].
    split; [|done]. intros k Hk. by rewrite !lookup_insert_ne.
  - (* the payment returned a failure result *)
    match goal with
    | H : processPayment _ _ _ _ _ = _ |- _ =>
        apply worker_payment in H as (st0 & Hsame & Hpay)
    end.
    pose proof (payment_outcome _ _ _ _ _ _ _ Hpay) as Hrec.
    cbn in Hrec.
    match goal with Hs : success _ = false |- _ => rewrite Hs in Hrec end.
    destruct Hrec as (Hsame' & _).
    destruct (reserve_success_effect _ _ _ _ _ Hreserve)
      as (_ & Hinv & Ho & Hp); [done|].
    cbn in Ho, Hp.
    pose proof (same_stores_trans _ _ _ Hsame Hsame') as Hs23.
    pose proof (f_equal (λ m, m !! orderId od) Ho) as Horder.
    cbn in Horder. rewrite lookup_insert_eq in Horder.
    match type of Hr with
    | catch_block _ _ ?e0 (mkState _ ?log _) = _ =>
        destruct (unwind_after_reservation od st _ _ e0 log _ Hinv Hs23 Horder)
          as (w6 & cancelledAt & Hc & Hq & Hp6 & Ho6)
    end.
    rewrite Hc in Hr. injection Hr as <- <-. cbn.
    split; [done|]. split; [congruence|].
    rewrite Ho6, Ho. cbn. split; [eexists; by rewrite lookup_insert_eq|].
    split; [|done]. intros k Hk. by rewrite !lookup_insert_ne.
Qed.

(** X15. As the activities are written, only [reserveInventory] (by a
    failure result) and [processPayment] (by a failure result, or by
    throwing on every attempt) can end the forward phase.  So every
    compensated run over them calls [cancelOrder], none calls
    [refundPayment], and the [error] of the outcome is ['Insufficient
    inventory'], or ['Activity task failed'] (the message of the rejection of
    a payment call whose attempts all threw), or a text that starts with
    ['Payment failed: Payment failed: ']. *)
Theorem compensated_runs_over_registered_activities
    (od : OrderData) (st : Stores) (r : WorkflowResult) (s : State Stores) :
  run (activities amb) od st = (inl r, s) →
  w_success r = false →
  CancelOrder ∈ compensations_executed (calls s)
  ∧ (RefundPayment ∉ compensations_executed (calls s))
  ∧ ((w_error r = Some "Insufficient inventory")
     ∨ (w_error r = Some "Activity task failed")
     ∨ ∃ msg, w_error r = Some ("Payment failed: Payment failed: " +:+ msg)).
Proof.
  intros Hr Hfail.
  destruct (run_outcome (activities amb) od st) as (v & s1 & Hpath & Hrun).
  rewrite Hrun in Hr. clear Hrun.
  inversion Hpath; subst; clear Hpath;
    repeat match goal with
           | H : createOrder _ _ _ = _ |- _ =>
               rewrite worker_create in H; simplify_eq
           | H : reserveInventory _ _ _ _ = _ |- _ =>
               apply worker_reserve in H as (? & ? & Hreserve); simplify_eq
           | H : sendConfirmationEmail _ _ _ _ _ = _ |- _ =>
               rewrite worker_confirmation_email in H; simplify_eq
           | H : processPayment _ _ _ _ _ = (inr _, _) |- _ =>
               apply worker_payment in H as (-> & _)
           | H : processPayment _ _ _ _ _ = (inl _, _) |- _ =>
               apply worker_payment in H as (st0 & Hsame & Hpay);
               apply payment_outcome in Hpay; cbn in Hpay
           end;
    match type of Hr with
    | catch_block _ _ ?e0 ?s0 = _ =>
        destruct (catch_block_returns (activities amb) od e0 s0)
          as (cs & em & w' & Hc & Hcaps)
    end;
    rewrite Hc in Hr; injection Hr as <- <-; name_calls cs Hcaps;
    cbn;
    (split; [repeat first [apply list_elem_of_here
                          | apply list_elem_of_further]|]);
    (split; [intros H; members H|]).
  - by left.
  - right. by left.
  - match goal with Hs : success _ = false |- _ => rewrite Hs in Hpay end.
    destruct Hpay as (_ & _ & msg & ->). cbn. right. right.
    by exists msg.
Qed.

End Effects.

Lemma compensated_runs_over_registered_activities_witness :
  ∃ r s,
    run (activities ambient_timeout) order_o1 initial_stores = (inl r, s)
    ∧ w_success r = false
    ∧ w_error r = Some "Activity task failed"
    ∧ (RefundPayment ∉ compensations_executed (calls s)).
Proof.
  destruct (run (activities ambient_timeout) order_o1 initial_stores)
    as [[r|e] s] eqn:E; [|vm_compute in E; discriminate E].
  assert (w_success r = false ∧ w_error r = Some "Activity task failed")
    as [Hfail Herr].
  { vm_compute in E. by injection E as <- _. }
  destruct (compensated_runs_over_registered_activities ambient_timeout
              order_o1 initial_stores r s E Hfail) as (_ & Hno & _).
  exists r, s. by repeat split.
Defined.

Lemma successful_run_effects_witness :
  ∃ r s pid,
    run (activities ambient0) order_o1 initial_stores = (inl r, s)
    ∧ w_success r = true
    ∧ w_paymentId r = Some pid
    ∧ inventory (world s) !! "item-1"
      = Some (mkInventoryItem "Product 1" 8 (Some 2))
    ∧ is_Some (payments (world s) !! pid).
Proof.
  destruct (run (activities ambient0) order_o1 initial_stores)
    as [[r|e] s] eqn:E; [|vm_compute in E; discriminate E].
  assert (w_success r = true) as Hok.
  { vm_compute in E. by injection E as <- _. }
  assert (exact_reserve initial_stores (items order_o1)) as Hex
    by exact_stock.
  destruct (successful_run_effects ambient0 order_o1 initial_stores r s
              Hex E Hok)
    as (pid & createdAt & processedAt & Hpid & _ & Hinv & Hpay & _).
  exists r, s, pid. split; [reflexivity|]. split; [exact Hok|].
  split; [exact Hpid|]. split; [by rewrite Hinv|].
  rewrite Hpay, lookup_insert_eq. by eexists.
Defined.

Lemma compensated_run_restores_stock_witness :
  ∃ r s,
    run (activities ambient0) order_o2 initial_stores = (inl r, s)
    ∧ w_success r = false
    ∧ i_quantity <$> inventory (world s) !! "item-1" = Some 10
    ∧ i_quantity <$> inventory (world s) !! "item-3" = Some 8
    ∧ payments (world s) = ∅
    ∧ compensations_executed (calls s) = [ReleaseInventory; CancelOrder].
Proof.
  destruct (run (activities ambient0) order_o2 initial_stores)
    as [[r|e] s] eqn:E; [|vm_compute in E; discriminate E].
  assert (w_success r = false
          ∧ mkCall ReserveInventory
              (Returned (ok_result (Some "Inventory reserved successfully")))
            ∈ calls s) as [Hfail Hin].
  { pose proof E as E'. vm_compute in E'. injection E' as <- <-.
    split; [reflexivity|]. apply list_elem_of_further, list_elem_of_here. }
  assert (exact_reserve initial_stores (items order_o2)) as Hsafe
    by exact_stock.
  destruct (compensated_run_restores_stock ambient0 order_o2 initial_stores
              r s _ Hsafe E Hfail Hin eq_refl) as (Hq & Hp & _ & _ & Hex).
  exists r, s. split; [reflexivity|]. split; [exact Hfail|].
  split; [by rewrite Hq|]. split; [by rewrite Hq|]. by split.
Defined.

End WorkerLaws.
